(** * glyphinator: Reed-Solomon and BCH test calculators

    A shallow embedding of [scripts/rs-test.py] and [scripts/bch-test.py].
    Python integers are unbounded, so they are modelled as [Z]; a
    [bytearray], [bytes] or tuple is a [list Z]; the dictionary of
    precomputed factor tables is a [gmap Z (list Z)].  Python exceptions are
    kept as an explicit error result. *)

From Stdlib Require Import ZArith Lia.
From stdpp Require Import base list gmap.

Local Open Scope Z_scope.

(** ** The fragment of Python the two scripts use *)

Module Py.

(** The exceptions the scripts can run into. *)
Inductive exn : Set := KeyError | IndexError | ValueError.

#[global] Instance exn_eq_dec : EqDecision exn.
Proof. solve_decision. Defined.

(** The outcome of evaluating an expression or running a block. *)
Inductive outcome (A : Type) : Type :=
| Ok (a : A)
| Raise (e : exn).
Arguments Ok {A} a.
Arguments Raise {A} e.

#[global] Instance outcome_eq_dec {A} `{EqDecision A} : EqDecision (outcome A).
Proof. solve_decision. Defined.

Definition bind {A B} (m : outcome A) (k : A -> outcome B) : outcome B :=
  match m with
  | Ok a => k a
  | Raise e => Raise e
  end.

Definition raises {A} (m : outcome A) : Prop :=
  match m with
  | Ok _ => False
  | Raise _ => True
  end.

(** [range(n)] : 0, 1, ..., n-1 (empty when n <= 0). *)
Definition range (n : Z) : list Z := seqZ 0 n.

(** [range(lo, hi)] : lo, lo+1, ..., hi-1 (empty when hi <= lo). *)
Definition range2 (lo hi : Z) : list Z := seqZ lo (hi - lo).

(** [range(hi, -1, -1)] : hi, hi-1, ..., 0 (empty when hi < 0). *)
Definition range_down (hi : Z) : list Z := reverse (seqZ 0 (hi + 1)).

(** A [for] loop whose body may raise: the state is threaded through the
    iterations and the first exception ends the loop. *)
Fixpoint for_each {S : Type} (xs : list Z) (body : Z -> S -> outcome S)
    (s : S) : outcome S :=
  match xs with
  | [] => Ok s
  | x :: xs' => bind (body x s) (for_each xs' body)
  end.

(** The position a subscript [i] denotes in a sequence of length [n]:
    negative subscripts count from the end. *)
Definition position (n : nat) (i : Z) : option nat :=
  if 0 <=? i then
    if i <? Z.of_nat n then Some (Z.to_nat i) else None
  else
    if 0 <=? Z.of_nat n + i then Some (Z.to_nat (Z.of_nat n + i)) else None.

(** [s[i]] on a tuple, [bytes] or [bytearray]. *)
Definition getitem (s : list Z) (i : Z) : outcome Z :=
  match position (length s) i with
  | Some k =>
      match s !! k with
      | Some x => Ok x
      | None => Raise IndexError
      end
  | None => Raise IndexError
  end.

(** [b[i] = x] on a [bytearray]: the value must be a byte and the
    subscript in range. *)
Definition setitem (b : list Z) (i : Z) (x : Z) : outcome (list Z) :=
  if (0 <=? x) && (x <? 256) then
    match position (length b) i with
    | Some k => Ok (<[k := x]> b)
    | None => Raise IndexError
    end
  else Raise ValueError.

(** [b.append(x)] on a [bytearray]: the value must be a byte. *)
Definition append (b : list Z) (x : Z) : outcome (list Z) :=
  if (0 <=? x) && (x <? 256) then Ok (b ++ [x]) else Raise ValueError.

(** [bytearray(n)] : n zero bytes; a negative count is a [ValueError]. *)
Definition bytearray (n : Z) : outcome (list Z) :=
  if n <? 0 then Raise ValueError else Ok (replicate (Z.to_nat n) 0).

(** [d[k]] on a dictionary: a missing key is a [KeyError]. *)
Definition dict_getitem {V} (d : gmap Z V) (k : Z) : outcome V :=
  match d !! k with
  | Some v => Ok v
  | None => Raise KeyError
  end.

(** [try: m  except(e): handler] : only the exception [e] is handled. *)
Definition try_except {A} (m : outcome A) (e : exn) (handler : outcome A)
    : outcome A :=
  match m with
  | Ok a => Ok a
  | Raise e' => if decide (e' = e) then handler else Raise e'
  end.

(** [a << n] ; a negative shift count is a [ValueError]. *)
Definition lshift (a n : Z) : outcome Z :=
  if n <? 0 then Raise ValueError else Ok (Z.shiftl a n).

(** A value that fits a byte. *)
Definition is_byte (x : Z) : Prop := 0 <= x < 256.

End Py.

Notation "'let!' x ':=' m 'in' k" := (Py.bind m (fun x => k))
  (at level 10, x name, m at level 100, k at level 200).

(** ** scripts/rs-test.py *)

Module RS.
Import Py.

Definition factor_tables : gmap Z (list Z) :=
  <[5 := [228;48;15;111;62]]> (
  <[7 := [23;68;144;134;240;92;254]]> (
  <[10 := [28;24;185;166;223;248;116;255;110;61]]> (
  <[12 := [41;153;158;91;61;42;142;213;97;178;100;242]]> (
  <[14 := [156;97;192;252;95;9;157;119;138;45;18;186;83;185]]> (
  <[18 := [83;195;100;39;188;75;66;61;241;213;109;129;94;254;225;48;90;188]]> (
  <[20 := [15;195;244;9;233;71;168;2;188;160;153;145;253;79;108;82;27;174;186;172]]>
  ∅)))))).

(** The padding loop; [pad_start] is [len(data)] before the loop. *)
Definition pad (data : list Z) (data_size : Z) : outcome (list Z) :=
  let pad_start := Z.of_nat (length data) in
  for_each (range2 pad_start data_size) (fun i data =>
    if i =? pad_start then append data 129
    else
      let p := (((149 * (i + 1)) mod 253) + 130) mod 254 in
      append data (if p =? 0 then 254 else p)) data.

Definition galois_log : list Z :=
  [-255; 255; 1; 240; 2; 225; 241; 53; 3; 38; 226; 133; 242; 43; 54; 210; 4; 195;39; 114; 227; 106; 134; 28; 243; 140; 44; 23; 55; 118; 211; 234; 5; 219; 196; 96; 40; 222; 115; 103; 228; 78; 107; 125; 135; 8; 29; 162; 244; 186; 141; 180; 45; 99; 24; 49; 56; 13; 119; 153; 212; 199; 235; 91; 6; 76; 220; 217; 197; 11; 97;184; 41; 36; 223; 253; 116; 138; 104; 193; 229; 86; 79; 171; 108; 165; 126; 145; 136; 34; 9; 74; 30; 32; 163; 84; 245; 173; 187; 204; 142; 81; 181; 190; 46; 88; 100; 159; 25; 231; 50; 207; 57; 147; 14; 67; 120; 128; 154; 248; 213; 167; 200; 63; 236; 110; 92; 176; 7; 161; 77; 124; 221; 102; 218; 95; 198; 90; 12; 152; 98; 48; 185; 179; 42; 209; 37; 132; 224; 52; 254; 239; 117; 233; 139; 22; 105; 27; 194; 113; 230; 206; 87; 158; 80; 189; 172; 203; 109; 175; 166; 62; 127; 247; 146; 66; 137; 192; 35; 252; 10; 183; 75; 216; 31; 83; 33; 73; 164; 144; 85; 170; 246; 65; 174; 61; 188; 202; 205; 157; 143; 169; 82; 72; 182; 215; 191; 251; 47; 178; 89; 151; 101; 94; 160; 123; 26; 112; 232; 21; 51; 238; 208; 131; 58; 69; 148; 18; 15; 16; 68; 17; 121; 149; 129; 19; 155; 59; 249; 70; 214; 250; 168; 71; 201; 156; 64; 60; 237; 130; 111; 20; 93; 122; 177; 150].

Definition galois_antilog : list Z :=
  [1; 2; 4; 8; 16; 32; 64; 128; 45; 90; 180; 69; 138; 57; 114; 228; 229; 231; 227; 235; 251; 219; 155; 27; 54; 108; 216; 157; 23; 46; 92; 184; 93; 186; 89; 178; 73; 146; 9; 18; 36; 72; 144; 13; 26; 52; 104; 208; 141; 55; 110; 220; 149; 7; 14; 28; 56; 112; 224; 237; 247; 195; 171; 123; 246; 193; 175; 115; 230; 225; 239; 243; 203; 187; 91; 182; 65; 130; 41; 82; 164; 101; 202; 185; 95; 190; 81; 162; 105; 210; 137; 63; 126; 252; 213; 135; 35; 70; 140; 53; 106; 212; 133; 39; 78; 156; 21; 42; 84; 168; 125; 250; 217; 159; 19; 38; 76; 152; 29; 58; 116; 232; 253; 215; 131; 43; 86; 172; 117; 234; 249; 223; 147; 11; 22; 44; 88; 176; 77; 154; 25; 50; 100; 200; 189; 87; 174; 113; 226; 233; 255; 211; 139; 59; 118; 236; 245; 199; 163; 107; 214; 129; 47; 94; 188; 85; 170; 121; 242; 201; 191; 83; 166; 97; 194; 169; 127; 254; 209; 143; 51; 102; 204; 181; 71; 142; 49; 98; 196; 165; 103; 206; 177; 79; 158; 17; 34; 68; 136; 61; 122; 244; 197; 167; 99; 198; 161; 111; 222; 145; 15; 30; 60; 120; 240; 205; 183; 67; 134; 33; 66; 132; 37; 74; 148; 5; 10; 20; 40; 80; 160; 109; 218; 153; 31; 62; 124; 248; 221; 151; 3; 6; 12; 24; 48;96; 192; 173; 119; 238; 241; 207; 179; 75; 150; 1].

Definition galois_mult (a b : Z) : outcome Z :=
  let! la := getitem galois_log a in
  let! lb := getitem galois_log b in
  getitem galois_antilog ((la + lb) mod 255).

Definition galois_pow (a b : Z) : outcome Z :=
  if b =? 0 then Ok 1
  else if b =? 1 then Ok a
  else for_each (range (b - 1)) (fun _ r => galois_mult r a) a.

(** The [except KeyError] branch of [factor_table]: the general
    construction (the diagnostic prints are left out). *)
Definition build_factors (ecc_size : Z) : outcome (list Z) :=
  let! factors := bytearray ecc_size in
  for_each (range (ecc_size + 1)) (fun i factors =>
    for_each (range_down (i - 1)) (fun j factors =>
      let! fj := getitem factors j in
      let! pw := galois_pow 2 i in
      let! m := galois_mult fj pw in
      let! factors := setitem factors j m in
      if 0 <? j then
        let! fj := getitem factors j in
        let! fj1 := getitem factors (j - 1) in
        setitem factors j (Z.lxor fj fj1)
      else Ok factors) factors) factors.

Definition factor_table (ecc_size : Z) : outcome (list Z) :=
  try_except (dict_getitem factor_tables ecc_size) KeyError
             (build_factors ecc_size).

(** The value the encoder stores in [ecc[j]] before the carry is folded
    in: the [if (t==0)] / [else] of the inner loop. *)
Definition ecc_term (t : Z) (f : list Z) (ecc_size j : Z) : outcome Z :=
  if t =? 0 then Ok 0
  else
    let! lt := getitem galois_log t in
    let! fk := getitem f (ecc_size - j - 1) in
    let! lf := getitem galois_log fk in
    getitem galois_antilog ((lt + lf) mod 255).

(** The body of the inner loop: slot [j] is written, and the slot after
    it, if there is one, is folded in. *)
Definition ecc_slot (t : Z) (f : list Z) (ecc_size : Z) (j : Z)
    (ecc : list Z) : outcome (list Z) :=
  let! m := ecc_term t f ecc_size j in
  let! ecc := setitem ecc j m in
  if j + 1 <? ecc_size then
    let! e1 := getitem ecc (j + 1) in
    let! ej := getitem ecc j in
    setitem ecc j (Z.lxor e1 ej)
  else Ok ecc.

(** The loop that calculates the ecc bytes, from the accumulator [ecc]. *)
Definition ecc_loop (data : list Z) (data_size ecc_size : Z) (f : list Z)
    (ecc : list Z) : outcome (list Z) :=
  for_each (range data_size) (fun i ecc =>
    let! d := getitem data i in
    let! e0 := getitem ecc 0 in
    let t := Z.lxor d e0 in
    for_each (range ecc_size) (ecc_slot t f ecc_size) ecc) ecc.

(** The ecc calculation on its own: the accumulator is allocated and the
    loop run on the codeword [data[0:data_size]] with the factors [f]. *)
Definition calc_ecc (data : list Z) (data_size ecc_size : Z) (f : list Z)
    : outcome (list Z) :=
  let! ecc := bytearray ecc_size in
  ecc_loop data data_size ecc_size f ecc.

(** The loop that turns the bytes of a text into codewords:
    [for i in range(len(data)): data[i]=data[i]+1]. *)
Definition shift_text (data : list Z) : outcome (list Z) :=
  for_each (range (Z.of_nat (length data))) (fun i data =>
    let! x := getitem data i in
    setitem data i (x + 1)) data.

(** The script from the padding on: the accumulator is allocated, the
    data padded, the factor table fetched and the ecc bytes calculated. *)
Definition rs_test (data : list Z) (data_size ecc_size : Z)
    : outcome (list Z) :=
  let! ecc := bytearray ecc_size in
  let! data := pad data data_size in
  let! f := factor_table ecc_size in
  ecc_loop data data_size ecc_size f ecc.

End RS.

(** ** scripts/bch-test.py *)

Module BCH.
Import Py.

Definition calc_bch (v vw p pw : Z) : outcome Z :=
  let! v := lshift v (pw - 1) in
  for_each (range_down (vw - 1)) (fun i v =>
    let! q := lshift p i in
    let test := Z.lxor v q in
    if test <? v then Ok test else Ok v) v.

End BCH.

(** ** The encoder as the specification words it *)

Module Spec.
Import Py RS.

(** Total readings of the two tables. *)
Definition log_of (a : Z) : Z := galois_log !!! Z.to_nat a.
Definition antilog_of (k : Z) : Z := galois_antilog !!! Z.to_nat k.

(** [multiply(t, fk)] as step 2 of the algorithm gives it: zero for a zero
    [t], otherwise the antilog of the sum of the logs. *)
Definition multiply (t fk : Z) : Z :=
  if t =? 0 then 0 else antilog_of ((log_of t + log_of fk) mod 255).

(** The value of a product of two bytes as the tables give it. *)
Definition product (a b : Z) : Z :=
  antilog_of ((log_of a + log_of b) mod 255).

(** Doubling in GF(2^8) under the field polynomial 301. *)
Definition xtime (a : Z) : Z :=
  if a <? 128 then 2 * a else Z.lxor (2 * a) 301.

(** One round of the general factor construction as a map on the table:
    each slot below [i] is multiplied by [g] and takes in the slot before
    it as the round found it; the other slots are left. *)
Definition factor_round (g : Z) (i : nat) (f : list Z) : list Z :=
  imap (fun j fj =>
          if decide (j < i)%nat then
            if decide (0 < j)%nat
            then Z.lxor (product fj g) (f !!! (j - 1)%nat)
            else product fj g
          else fj) f.

(** The XOR of the elements of a list. *)
Definition xor_all (l : list Z) : Z := foldr Z.lxor 0 l.

(** The XOR of two byte sequences, slot by slot. *)
Definition xor_bytes (a b : list Z) : list Z := zip_with Z.lxor a b.

(** The XOR of the copies of the polynomial [p] shifted by each of
    [shifts]: a multiple of [p] over GF(2). *)
Definition xor_shifts (p : Z) (shifts : list Z) : Z :=
  foldr (fun i acc => Z.lxor (Z.shiftl p i) acc) 0 shifts.

(** The pad byte of the formula for the 0-based position [i]. *)
Definition pad_formula (i : Z) : Z :=
  let p := (((149 * (i + 1)) mod 253) + 130) mod 254 in
  if p =? 0 then 254 else p.

(** One forward sweep for the input byte [d]: every slot is computed from
    the accumulator [prev] as the previous byte's sweep left it. *)
Definition sweep (factors prev : list Z) (d : Z) : list Z :=
  let n := length prev in
  let t := Z.lxor d (prev !!! 0%nat) in
  (fun j =>
     let m := multiply t (factors !!! (n - 1 - j)%nat) in
     if decide (S j < n)%nat then Z.lxor m (prev !!! S j) else m)
  <$> seq 0 n.

(** The ecc sequence: the sweeps folded over the codeword, from the
    all-zero accumulator. *)
Definition rs_encode (codeword factors : list Z) : list Z :=
  foldl (sweep factors) (replicate (length factors) 0) codeword.

End Spec.

Import Py RS BCH Spec.

(** ** Facts about the Python fragment *)

Section PyFacts.

Lemma bind_Ok {A B} (m : outcome A) (k : A -> outcome B) a :
  m = Ok a -> bind m k = k a.
Proof. intros ->. reflexivity. Qed.

Lemma position_in_range n i :
  0 <= i < Z.of_nat n -> position n i = Some (Z.to_nat i).
Proof.
  intros [H0 Hn]. unfold position.
  rewrite (proj2 (Z.leb_le 0 i) H0), (proj2 (Z.ltb_lt i _) Hn). reflexivity.
Qed.

Lemma getitem_in_range s i x :
  0 <= i -> s !! Z.to_nat i = Some x -> getitem s i = Ok x.
Proof.
  intros H0 Hx. unfold getitem.
  rewrite position_in_range, Hx; [reflexivity|].
  apply lookup_lt_Some in Hx. lia.
Qed.

Lemma getitem_total s i :
  0 <= i < Z.of_nat (length s) -> getitem s i = Ok (s !!! Z.to_nat i).
Proof.
  intros H. apply getitem_in_range; [lia|].
  apply list_lookup_lookup_total_lt. lia.
Qed.

Lemma is_byte_check x : is_byte x -> (0 <=? x) && (x <? 256) = true.
Proof.
  intros [H0 H1]. apply andb_true_intro. split.
  - apply Z.leb_le, H0.
  - apply Z.ltb_lt, H1.
Qed.

Lemma setitem_in_range b i x :
  is_byte x -> 0 <= i < Z.of_nat (length b) ->
  setitem b i x = Ok (<[Z.to_nat i := x]> b).
Proof.
  intros Hx Hi. unfold setitem.
  rewrite (is_byte_check _ Hx), position_in_range by exact Hi. reflexivity.
Qed.

Lemma append_byte b x : is_byte x -> append b x = Ok (b ++ [x]).
Proof. intros Hx. unfold append. rewrite (is_byte_check _ Hx). reflexivity. Qed.

Lemma for_each_app {S} xs ys (body : Z -> S -> outcome S) s :
  for_each (xs ++ ys) body s = bind (for_each xs body s) (for_each ys body).
Proof.
  revert s. induction xs as [|x xs IH]; intros s; simpl; [reflexivity|].
  destruct (body x s) as [s'|e]; simpl; [apply IH | reflexivity].
Qed.

Lemma for_each_ext {S} xs (body body' : Z -> S -> outcome S) s :
  (forall x s, body x s = body' x s) ->
  for_each xs body s = for_each xs body' s.
Proof.
  intros Hext. revert s. induction xs as [|x xs IH]; intros s; simpl.
  - reflexivity.
  - rewrite Hext. destruct (body' x s); simpl; [apply IH | reflexivity].
Qed.

(** Bits: a value below [2^n] has no bit at or above [n], and conversely. *)
Lemma testbit_above a n m : 0 <= a < 2 ^ n -> 0 <= n <= m -> Z.testbit a m = false.
Proof.
  intros [H0 Hn] Hm. apply Z.testbit_false; [lia|].
  rewrite Z.div_small; [reflexivity|].
  split; [exact H0|]. apply Z.lt_le_trans with (2 ^ n); [exact Hn|].
  apply Z.pow_le_mono_r; lia.
Qed.

Lemma lt_pow2_of_bits a n :
  0 <= a -> 0 <= n -> (forall m, n <= m -> Z.testbit a m = false) -> a < 2 ^ n.
Proof.
  intros Ha Hn Hbits.
  destruct (Z.lt_ge_cases a (2 ^ n)) as [|Hge]; [assumption|exfalso].
  assert (0 < a) as Hpos by (pose proof (Z.pow_pos_nonneg 2 n); lia).
  apply (Z.log2_le_pow2 a n Hpos) in Hge.
  pose proof (Z.bit_log2 a Hpos) as Hbit.
  rewrite (Hbits _ Hge) in Hbit. discriminate.
Qed.

Lemma lxor_lt_pow2 a b n :
  0 <= n -> 0 <= a < 2 ^ n -> 0 <= b < 2 ^ n -> 0 <= Z.lxor a b < 2 ^ n.
Proof.
  intros Hn Ha Hb.
  assert (0 <= Z.lxor a b) as H0 by (apply Z.lxor_nonneg; lia).
  split; [exact H0|].
  apply lt_pow2_of_bits; [exact H0 | exact Hn |].
  intros m Hm. rewrite Z.lxor_spec.
  rewrite (testbit_above a n m), (testbit_above b n m) by (assumption || lia).
  reflexivity.
Qed.

Lemma lxor_is_byte a b : is_byte a -> is_byte b -> is_byte (Z.lxor a b).
Proof. intros Ha Hb. apply (lxor_lt_pow2 a b 8); [lia| exact Ha | exact Hb]. Qed.

End PyFacts.

(** ** The Galois field tables *)

Section Tables.

Lemma length_galois_log : length galois_log = 256%nat.
Proof. reflexivity. Qed.

Lemma length_galois_antilog : length galois_antilog = 256%nat.
Proof. reflexivity. Qed.

Lemma getitem_log a : is_byte a -> getitem galois_log a = Ok (log_of a).
Proof.
  intros Ha. apply getitem_total. rewrite length_galois_log. exact Ha.
Qed.

Lemma getitem_antilog k :
  0 <= k < 256 -> getitem galois_antilog k = Ok (antilog_of k).
Proof.
  intros Hk. apply getitem_total. rewrite length_galois_antilog. exact Hk.
Qed.

(** A property of bytes that can be decided holds when it holds of each of
    the 256 of them. *)
Lemma byte_cases (P : Z -> Prop) `{forall x, Decision (P x)} :
  bool_decide (Forall P (seqZ 0 256)) = true -> forall x, is_byte x -> P x.
Proof.
  intros Hall x Hx. apply bool_decide_eq_true_1 in Hall.
  rewrite Forall_seqZ in Hall. apply Hall. unfold is_byte in Hx. lia.
Qed.

Lemma antilog_nonzero k : 0 <= k < 256 -> 1 <= antilog_of k <= 255.
Proof.
  revert k. apply (byte_cases (fun k => 1 <= antilog_of k <= 255)).
  vm_compute. reflexivity.
Qed.

Lemma antilog_is_byte k : 0 <= k < 256 -> is_byte (antilog_of k).
Proof. intros Hk. pose proof (antilog_nonzero k Hk). unfold is_byte. lia. Qed.

Lemma antilog_log a : 1 <= a <= 255 -> antilog_of (log_of a mod 255) = a.
Proof.
  revert a.
  enough (forall a, is_byte a -> a <> 0 -> antilog_of (log_of a mod 255) = a)
    as Hb by (intros a Ha; apply Hb; unfold is_byte; lia).
  apply (byte_cases (fun a => a <> 0 -> antilog_of (log_of a mod 255) = a)).
  vm_compute. reflexivity.
Qed.

Lemma log_antilog k : 0 <= k < 255 -> log_of (antilog_of k) mod 255 = k.
Proof.
  revert k.
  enough (forall k, is_byte k -> k <> 255 -> log_of (antilog_of k) mod 255 = k)
    as Hb by (intros k Hk; apply Hb; unfold is_byte; lia).
  apply (byte_cases (fun k => k <> 255 -> log_of (antilog_of k) mod 255 = k)).
  vm_compute. reflexivity.
Qed.

Lemma log_zero : log_of 0 = -255.
Proof. reflexivity. Qed.

Lemma log_one : log_of 1 = 255.
Proof. reflexivity. Qed.

(** The value of a product of two bytes: no case is made of zero. *)
Lemma galois_mult_bytes a b :
  is_byte a -> is_byte b ->
  galois_mult a b = Ok (antilog_of ((log_of a + log_of b) mod 255)).
Proof.
  intros Ha Hb. unfold galois_mult.
  rewrite (getitem_log a Ha), (getitem_log b Hb). simpl bind.
  apply getitem_antilog.
  pose proof (Z.mod_pos_bound (log_of a + log_of b) 255). lia.
Qed.

Lemma galois_mult_nonzero a b :
  is_byte a -> is_byte b ->
  exists r, galois_mult a b = Ok r /\ 1 <= r <= 255.
Proof.
  intros Ha Hb. eexists. split; [apply galois_mult_bytes; assumption|].
  apply antilog_nonzero.
  pose proof (Z.mod_pos_bound (log_of a + log_of b) 255). lia.
Qed.

Lemma galois_mult_zero_l b :
  1 <= b <= 255 -> galois_mult 0 b = Ok b.
Proof.
  intros Hb. rewrite galois_mult_bytes by (unfold is_byte; lia).
  rewrite log_zero.
  replace (-255 + log_of b) with (log_of b + (-1) * 255) by lia.
  rewrite Z.mod_add by lia. rewrite antilog_log by exact Hb. reflexivity.
Qed.

Lemma galois_mult_zero_r b :
  1 <= b <= 255 -> galois_mult b 0 = Ok b.
Proof.
  intros Hb. rewrite galois_mult_bytes by (unfold is_byte; lia).
  rewrite log_zero.
  replace (log_of b + -255) with (log_of b + (-1) * 255) by lia.
  rewrite Z.mod_add by lia. rewrite antilog_log by exact Hb. reflexivity.
Qed.

End Tables.

(** ** Multiplication in the field *)

Section Multiplication.

(** C1, as stated, fails: [galois_mult] makes no case of zero, and a product
    with zero is the other operand. *)
Lemma galois_mult_zero_not_zero :
  is_byte 5 /\ galois_mult 0 5 = Ok 5 /\ galois_mult 5 0 = Ok 5 /\
  galois_mult 0 5 <> Ok 0 /\ galois_mult 5 0 <> Ok 0.
Proof.
  split; [unfold is_byte; lia|].
  split; [reflexivity|]. split; [reflexivity|].
  split; discriminate.
Qed.

(** C1, amended: for every byte [b], the only explicit zero check is the
    encoder's, whose stored term is 0 for [t = 0] whatever the factor table
    (no table is consulted); [galois_mult] itself reads the log table's zero
    entry like any other, so that [galois_mult 0 b] and [galois_mult b 0]
    are both [antilog[log[b] mod 255]], which is [b] when [b] is not zero. *)
Theorem zero_check_in_encoder_only (b : Z) (f : list Z) (ecc_size j : Z) :
  is_byte b ->
  ecc_term 0 f ecc_size j = Ok 0 /\
  galois_mult 0 b = Ok (antilog_of (log_of b mod 255)) /\
  galois_mult b 0 = Ok (antilog_of (log_of b mod 255)) /\
  (b <> 0 -> galois_mult 0 b = Ok b /\ galois_mult b 0 = Ok b).
Proof.
  intros Hb. assert (is_byte 0) as H0 by (unfold is_byte; lia).
  split; [reflexivity|].
  rewrite !galois_mult_bytes by assumption. rewrite log_zero.
  replace (-255 + log_of b) with (log_of b + (-1) * 255) by lia.
  replace (log_of b + -255) with (log_of b + (-1) * 255) by lia.
  rewrite Z.mod_add by lia.
  split; [reflexivity|]. split; [reflexivity|].
  intros Hnz. rewrite antilog_log by (unfold is_byte in Hb; lia).
  split; reflexivity.
Qed.

Lemma zero_check_in_encoder_only_witness :
  is_byte 7 /\
  ecc_term 0 [] 5 0 = Ok 0 /\
  galois_mult 0 7 = Ok (antilog_of (log_of 7 mod 255)) /\
  galois_mult 7 0 = Ok (antilog_of (log_of 7 mod 255)) /\
  (7 <> 0 -> galois_mult 0 7 = Ok 7 /\ galois_mult 7 0 = Ok 7).
Proof.
  assert (is_byte 7) as H7 by (unfold is_byte; lia).
  split; [exact H7|].
  exact (zero_check_in_encoder_only 7 [] 5 0 H7).
Defined.

(** C9: on the nonzero field elements the product is commutative, has 1 as
    identity and is associative; every product involved is returned (no
    subscript is out of range) and is again a nonzero element. *)
Theorem galois_mult_nonzero_laws (a b c : Z) :
  1 <= a <= 255 -> 1 <= b <= 255 -> 1 <= c <= 255 ->
  galois_mult a b = galois_mult b a /\
  galois_mult a 1 = Ok a /\
  exists ab bc r,
    galois_mult a b = Ok ab /\ 1 <= ab <= 255 /\
    galois_mult b c = Ok bc /\ 1 <= bc <= 255 /\
    galois_mult ab c = Ok r /\ galois_mult a bc = Ok r.
Proof.
  intros Ha Hb Hc.
  assert (is_byte a) as Ha' by (unfold is_byte; lia).
  assert (is_byte b) as Hb' by (unfold is_byte; lia).
  assert (is_byte c) as Hc' by (unfold is_byte; lia).
  assert (is_byte 1) as H1 by (unfold is_byte; lia).
  assert (forall x, 0 <= x mod 255 < 256) as Hmod
    by (intros x; pose proof (Z.mod_pos_bound x 255); lia).
  split; [|split].
  - rewrite !galois_mult_bytes by assumption.
    rewrite (Z.add_comm (log_of a)). reflexivity.
  - rewrite galois_mult_bytes by assumption. rewrite log_one.
    replace (log_of a + 255) with (log_of a + 1 * 255) by lia.
    rewrite Z.mod_add by lia. rewrite antilog_log by exact Ha. reflexivity.
  - set (ab := antilog_of ((log_of a + log_of b) mod 255)).
    set (bc := antilog_of ((log_of b + log_of c) mod 255)).
    assert (1 <= ab <= 255) as Hab by apply antilog_nonzero, Hmod.
    assert (1 <= bc <= 255) as Hbc by apply antilog_nonzero, Hmod.
    exists ab, bc, (antilog_of ((log_of a + log_of b + log_of c) mod 255)).
    split; [apply galois_mult_bytes; assumption|].
    split; [exact Hab|].
    split; [apply galois_mult_bytes; assumption|].
    split; [exact Hbc|].
    split.
    + rewrite galois_mult_bytes by (unfold is_byte; lia || assumption).
      rewrite <- (Z.add_mod_idemp_l (log_of ab)) by lia.
      unfold ab at 1. rewrite log_antilog
        by (pose proof (Z.mod_pos_bound (log_of a + log_of b) 255); lia).
      rewrite Z.add_mod_idemp_l by lia. reflexivity.
    + rewrite galois_mult_bytes by (unfold is_byte; lia || assumption).
      rewrite <- (Z.add_mod_idemp_r _ (log_of bc)) by lia.
      unfold bc at 1. rewrite log_antilog
        by (pose proof (Z.mod_pos_bound (log_of b + log_of c) 255); lia).
      rewrite Z.add_mod_idemp_r by lia. rewrite Z.add_assoc. reflexivity.
Qed.

Lemma galois_mult_nonzero_laws_witness :
  galois_mult 3 7 = galois_mult 7 3 /\
  galois_mult 3 1 = Ok 3 /\
  exists ab bc r,
    galois_mult 3 7 = Ok ab /\ 1 <= ab <= 255 /\
    galois_mult 7 200 = Ok bc /\ 1 <= bc <= 255 /\
    galois_mult ab 200 = Ok r /\ galois_mult 3 bc = Ok r.
Proof. apply (galois_mult_nonzero_laws 3 7 200); lia. Defined.

(** C10: the log table's zero entry is -255 and the product makes no case of
    zero, so zero is an identity of [galois_mult]; the general factor-table
    construction multiplies the zero entries of its fresh accumulator, the
    table for one ecc byte being [galois_mult 0 2 = 2]. *)
Theorem galois_mult_zero_is_identity (b : Z) :
  1 <= b <= 255 ->
  getitem galois_log 0 = Ok (-255) /\
  galois_mult 0 b = Ok b /\ galois_mult b 0 = Ok b /\
  galois_mult 0 0 = Ok 1 /\
  bytearray 1 = Ok [0] /\ build_factors 1 = Ok [2].
Proof.
  intros Hb.
  split; [reflexivity|].
  split; [apply galois_mult_zero_l, Hb|].
  split; [apply galois_mult_zero_r, Hb|].
  split; [reflexivity|]. split; reflexivity.
Qed.

Lemma galois_mult_zero_is_identity_witness :
  getitem galois_log 0 = Ok (-255) /\
  galois_mult 0 142 = Ok 142 /\ galois_mult 142 0 = Ok 142 /\
  galois_mult 0 0 = Ok 1 /\
  bytearray 1 = Ok [0] /\ build_factors 1 = Ok [2].
Proof. apply (galois_mult_zero_is_identity 142). lia. Defined.

End Multiplication.

(** ** The factor tables *)

Section FactorTables.

(** C2: the general construction, run on its own, gives the stored tables
    for 5 and for 7 ecc bytes, which is what [factor_table] returns. *)
Theorem build_factors_reference :
  build_factors 5 = Ok [228; 48; 15; 111; 62] /\
  build_factors 7 = Ok [23; 68; 144; 134; 240; 92; 254] /\
  factor_table 5 = build_factors 5 /\
  factor_table 7 = build_factors 7.
Proof. repeat split; vm_compute; reflexivity. Qed.

(** A size that is not stored is handed to the general construction. *)
Lemma factor_table_missing (n : Z) :
  factor_tables !! n = None -> factor_table n = build_factors n.
Proof.
  intros Hn. unfold factor_table, dict_getitem. rewrite Hn. reflexivity.
Qed.

(** The same holds of every stored table. *)
Lemma build_factors_stored (n : Z) (t : list Z) :
  factor_tables !! n = Some t -> build_factors n = Ok t.
Proof.
  intros Hn. apply (elem_of_map_to_list factor_tables) in Hn.
  assert (Forall (fun p : Z * list Z => build_factors p.1 = Ok p.2)
                 (map_to_list factor_tables)) as Hall by compute_done.
  rewrite Forall_forall in Hall. exact (Hall _ Hn).
Qed.

End FactorTables.

(** ** The padding loop *)

Section Padding.

Lemma pad_formula_is_byte i : is_byte (pad_formula i).
Proof.
  unfold pad_formula, is_byte.
  pose proof (Z.mod_pos_bound ((149 * (i + 1)) mod 253 + 130) 254) as Hp.
  destruct (Z.eqb_spec (((149 * (i + 1)) mod 253 + 130) mod 254) 0); lia.
Qed.

(** A loop that appends one byte per iteration appends them all. *)
Lemma for_each_append (g : Z -> Z) (xs : list Z) (acc : list Z) :
  (forall i, is_byte (g i)) ->
  for_each xs (fun i d => append d (g i)) acc = Ok (acc ++ (g <$> xs)).
Proof.
  intros Hg. revert acc. induction xs as [|x xs IH]; intros acc; simpl.
  - rewrite app_nil_r. reflexivity.
  - rewrite (append_byte acc (g x) (Hg x)). simpl.
    rewrite IH, <- app_assoc. reflexivity.
Qed.

Lemma pad_unfold (data : list Z) (data_size : Z) :
  pad data data_size =
  Ok (data ++ ((fun i => if i =? Z.of_nat (length data) then 129
                         else pad_formula i)
               <$> seqZ (Z.of_nat (length data))
                        (data_size - Z.of_nat (length data)))).
Proof.
  unfold pad, range2.
  rewrite <- for_each_append.
  - apply for_each_ext. intros i d.
    destruct (i =? Z.of_nat (length data)); reflexivity.
  - intros i. destruct (i =? Z.of_nat (length data)).
    + unfold is_byte. lia.
    + apply pad_formula_is_byte.
Qed.

Lemma pad_short_eq (data : list Z) (target : Z) :
  Z.of_nat (length data) < target ->
  pad data target =
  Ok (data ++ 129 ::
        (pad_formula <$> seqZ (Z.of_nat (length data) + 1)
                              (target - Z.of_nat (length data) - 1))).
Proof.
  intros Hlt. rewrite pad_unfold. do 2 f_equal.
  rewrite (seqZ_cons (Z.of_nat (length data))) by lia.
  rewrite fmap_cons, Z.eqb_refl. f_equal.
  replace (Z.succ (Z.of_nat (length data)))
    with (Z.of_nat (length data) + 1) by lia.
  replace (Z.pred (target - Z.of_nat (length data)))
    with (target - Z.of_nat (length data) - 1) by lia.
  apply list_fmap_ext. intros k i Hi.
  apply lookup_seqZ in Hi as [-> Hk].
  destruct (Z.eqb_spec (Z.of_nat (length data) + 1 + Z.of_nat k)
                       (Z.of_nat (length data))); [lia | reflexivity].
Qed.

(** C5: data shorter than the target is extended by 129 and then by the
    bytes of the formula, one for each later position, to a sequence of
    exactly the target length. *)
Theorem pad_short (data : list Z) (target : Z) :
  Z.of_nat (length data) < target ->
  exists padded,
    pad data target = Ok padded /\
    Z.of_nat (length padded) = target /\
    padded =
      data ++ 129 ::
        ((fun i => let p := (((149 * (i + 1)) mod 253) + 130) mod 254 in
                   if p =? 0 then 254 else p)
         <$> seqZ (Z.of_nat (length data) + 1)
                  (target - Z.of_nat (length data) - 1)) /\
    padded !! length data = Some 129 /\
    forall i, Z.of_nat (length data) < i < target ->
      padded !! Z.to_nat i =
      Some (let p := (((149 * (i + 1)) mod 253) + 130) mod 254 in
            if p =? 0 then 254 else p).
Proof.
  intros Hlt.
  exists (data ++ 129 ::
            (pad_formula <$> seqZ (Z.of_nat (length data) + 1)
                                  (target - Z.of_nat (length data) - 1))).
  split; [apply pad_short_eq, Hlt|].
  split; [|split; [reflexivity|split]].
  - rewrite length_app. simpl. rewrite length_fmap, length_seqZ. lia.
  - rewrite lookup_app_r by lia. rewrite Nat.sub_diag. reflexivity.
  - intros i Hi. rewrite lookup_app_r by lia.
    replace (Z.to_nat i - length data)%nat
      with (S (Z.to_nat (i - Z.of_nat (length data) - 1))) by lia.
    simpl. rewrite list_lookup_fmap, lookup_seqZ_lt by lia.
    replace (Z.of_nat (length data) + 1 +
             Z.of_nat (Z.to_nat (i - Z.of_nat (length data) - 1)))
      with i by lia.
    reflexivity.
Qed.

Lemma pad_short_witness :
  exists padded,
    pad [142; 164; 186] 6 = Ok padded /\
    Z.of_nat (length padded) = 6 /\
    padded =
      [142; 164; 186] ++ 129 ::
        ((fun i => let p := (((149 * (i + 1)) mod 253) + 130) mod 254 in
                   if p =? 0 then 254 else p)
         <$> seqZ (Z.of_nat (length [142; 164; 186]) + 1)
                  (6 - Z.of_nat (length [142; 164; 186]) - 1)) /\
    padded !! length [142; 164; 186] = Some 129 /\
    forall i, Z.of_nat (length [142; 164; 186]) < i < 6 ->
      padded !! Z.to_nat i =
      Some (let p := (((149 * (i + 1)) mod 253) + 130) mod 254 in
            if p =? 0 then 254 else p).
Proof. apply (pad_short [142; 164; 186] 6). simpl. lia. Defined.

(** C7, as stated, fails: three bytes with a target of two raise nothing and
    come back as they are, longer than the target. *)
Lemma pad_long_no_error :
  2 < Z.of_nat (length [142; 164; 186]) /\
  pad [142; 164; 186] 2 = Ok [142; 164; 186] /\
  ~ raises (pad [142; 164; 186] 2).
Proof.
  split; [simpl; lia|]. split; [reflexivity|]. intros H. exact H.
Qed.

(** C7, amended: for data strictly longer than the target the loop does not
    run: nothing is raised, nothing appended and nothing cut off; the data
    comes back unchanged, and so longer than the target. *)
Theorem pad_long (data : list Z) (target : Z) :
  target < Z.of_nat (length data) ->
  pad data target = Ok data /\ ~ raises (pad data target).
Proof.
  intros Hlt.
  assert (pad data target = Ok data) as ->.
  { rewrite pad_unfold, seqZ_nil by lia. simpl. rewrite app_nil_r. reflexivity. }
  split; [reflexivity|]. intros H. exact H.
Qed.

Lemma pad_long_witness :
  pad [142; 164; 186] 2 = Ok [142; 164; 186] /\
  ~ raises (pad [142; 164; 186] 2).
Proof. apply (pad_long [142; 164; 186] 2). simpl. lia. Defined.

End Padding.

(** ** [factor_table] on sizes that are not positive *)

Section FactorTableErrors.

Lemma factor_tables_nonpositive (n : Z) : n <= 0 -> factor_tables !! n = None.
Proof.
  intros Hn. unfold factor_tables.
  rewrite !lookup_insert_ne by lia. apply lookup_empty.
Qed.

(** C8, as stated, fails: for [ecc_size = 0] nothing is raised and the empty
    table is returned. *)
Lemma factor_table_zero_no_error :
  0 <= 0 /\ factor_table 0 = Ok [] /\ ~ raises (factor_table 0).
Proof.
  split; [lia|]. split; [reflexivity|]. vm_compute. intros H. exact H.
Qed.

(** C8, amended: for every negative [ecc_size], [factor_table] raises (the
    [ValueError] of allocating a table of negative length) before anything
    is computed, and returns no table; for [ecc_size = 0] it returns the
    empty table. *)
Theorem factor_table_nonpositive (ecc_size : Z) :
  ecc_size <= 0 ->
  factor_table ecc_size = (if ecc_size =? 0 then Ok [] else Raise ValueError) /\
  (ecc_size < 0 -> raises (factor_table ecc_size)).
Proof.
  intros Hle.
  assert (factor_table ecc_size
          = if ecc_size =? 0 then Ok [] else Raise ValueError) as Heq.
  { unfold factor_table, dict_getitem.
    rewrite factor_tables_nonpositive by exact Hle. simpl try_except.
    destruct (Z.eqb_spec ecc_size 0) as [->|Hnz]; [reflexivity|].
    unfold build_factors, bytearray.
    rewrite (proj2 (Z.ltb_lt ecc_size 0)) by lia. reflexivity. }
  split; [exact Heq|].
  intros Hneg. rewrite Heq.
  destruct (Z.eqb_spec ecc_size 0); [lia | exact I].
Qed.

Lemma factor_table_nonpositive_witness :
  factor_table (-3) = (if -3 =? 0 then Ok [] else Raise ValueError) /\
  (-3 < 0 -> raises (factor_table (-3))).
Proof. apply (factor_table_nonpositive (-3)). lia. Defined.

End FactorTableErrors.

(** ** The BCH remainder *)

Section Remainder.

(** One step of the division: [q] is the polynomial shifted so that its top
    bit is bit [k]; the comparison picks the XOR exactly when bit [k] of
    [v] is set, which clears it. *)
Lemma bch_step (k v q : Z) :
  0 <= k -> 0 <= v < 2 ^ (k + 1) -> 2 ^ k <= q < 2 ^ (k + 1) ->
  0 <= (if Z.lxor v q <? v then Z.lxor v q else v) < 2 ^ k.
Proof.
  intros Hk Hv Hq.
  assert (0 < 2 ^ k) as Hpow by (apply Z.pow_pos_nonneg; lia).
  assert (Z.testbit q k = true) as Hqk.
  { apply Z.testbit_true; [exact Hk|].
    replace (q / 2 ^ k) with 1; [reflexivity|].
    apply Z.div_unique with (q - 2 ^ k); [|lia].
    left. rewrite Z.pow_add_r, Z.pow_1_r in Hq by lia. lia. }
  assert (0 <= Z.lxor v q) as Hx by (apply Z.lxor_nonneg; lia).
  destruct (Z.lt_ge_cases v (2 ^ k)) as [Hlow|Hhigh].
  - (* bit k of v is clear: the XOR sets it and is the larger *)
    assert (2 ^ k <= Z.lxor v q) as Hge.
    { destruct (Z.lt_ge_cases (Z.lxor v q) (2 ^ k)) as [Hlt|]; [|assumption].
      exfalso.
      pose proof (testbit_above (Z.lxor v q) k k (conj Hx Hlt)) as Hb.
      rewrite Z.lxor_spec, Hqk in Hb.
      rewrite (testbit_above v k k) in Hb by lia.
      specialize (Hb ltac:(lia)). discriminate. }
    rewrite (proj2 (Z.ltb_ge (Z.lxor v q) v)) by lia. lia.
  - (* bit k of v is set: the XOR clears it and is the smaller *)
    assert (Z.testbit v k = true) as Hvk.
    { apply Z.testbit_true; [exact Hk|].
      replace (v / 2 ^ k) with 1; [reflexivity|].
      apply Z.div_unique with (v - 2 ^ k); [|lia].
      left. rewrite Z.pow_add_r, Z.pow_1_r in Hv by lia. lia. }
    assert (Z.lxor v q < 2 ^ k) as Hlt.
    { apply lt_pow2_of_bits; [exact Hx | exact Hk |].
      intros m Hm. rewrite Z.lxor_spec.
      destruct (Z.eq_dec m k) as [->|Hne].
      - rewrite Hvk, Hqk. reflexivity.
      - rewrite (testbit_above v (k + 1) m), (testbit_above q (k + 1) m)
          by lia.
        reflexivity. }
    rewrite (proj2 (Z.ltb_lt (Z.lxor v q) v)) by lia. lia.
Qed.

(** The descending sweep, from a value below [2 ^ (pw - 1 + n)], over the
    [n] shifts [n-1, ..., 0]. *)
Lemma bch_sweep (p pw : Z) (n : nat) (v : Z) :
  1 <= pw -> 2 ^ (pw - 1) <= p < 2 ^ pw ->
  0 <= v < 2 ^ (pw - 1 + Z.of_nat n) ->
  exists r,
    for_each (reverse (seqZ 0 (Z.of_nat n)))
      (fun i v =>
         let! q := lshift p i in
         let test := Z.lxor v q in
         if test <? v then Ok test else Ok v) v = Ok r /\
    0 <= r < 2 ^ (pw - 1).
Proof.
  intros Hpw Hp. revert v. induction n as [|n IH]; intros v Hv.
  - exists v. split; [reflexivity|].
    rewrite Z.add_0_r in Hv. exact Hv.
  - rewrite seqZ_S, reverse_snoc, Z.add_0_l. simpl for_each.
    unfold lshift at 1.
    rewrite (proj2 (Z.ltb_ge (Z.of_nat n) 0)) by lia. simpl bind.
    assert (0 < 2 ^ Z.of_nat n) as Hpow by (apply Z.pow_pos_nonneg; lia).
    pose proof (bch_step (pw - 1 + Z.of_nat n) v (Z.shiftl p (Z.of_nat n)))
      as Hstep.
    replace (pw - 1 + Z.of_nat n + 1) with (pw - 1 + Z.of_nat (S n))
      in Hstep by lia.
    assert (2 ^ (pw - 1 + Z.of_nat n) <= Z.shiftl p (Z.of_nat n)
            < 2 ^ (pw - 1 + Z.of_nat (S n))) as Hq.
    { rewrite Z.shiftl_mul_pow2 by lia.
      replace (pw - 1 + Z.of_nat (S n)) with (pw + Z.of_nat n) by lia.
      rewrite !Z.pow_add_r by lia. nia. }
    specialize (Hstep ltac:(lia) Hv Hq).
    destruct (Z.lxor v (Z.shiftl p (Z.of_nat n)) <? v);
      simpl bind; apply IH; exact Hstep.
Qed.

(** The remainder of a [vw]-bit value by a [pw]-bit polynomial is returned
    and fits [pw - 1] bits. *)
Lemma calc_bch_fits (v vw p pw : Z) :
  0 <= v < 2 ^ vw -> 2 ^ (pw - 1) <= p < 2 ^ pw -> 1 <= pw ->
  exists r, calc_bch v vw p pw = Ok r /\ 0 <= r < 2 ^ (pw - 1).
Proof.
  intros Hv Hp Hpw.
  assert (0 <= vw) as Hvw.
  { destruct (Z.lt_ge_cases vw 0) as [Hneg|]; [|assumption].
    rewrite (Z.pow_neg_r 2 vw Hneg) in Hv. lia. }
  unfold calc_bch, lshift, range_down.
  rewrite (proj2 (Z.ltb_ge (pw - 1) 0)) by lia. simpl bind.
  replace (vw - 1 + 1) with (Z.of_nat (Z.to_nat vw)) by lia.
  apply bch_sweep; [exact Hpw | exact Hp |].
  rewrite Z.shiftl_mul_pow2 by lia.
  rewrite Z2Nat.id by exact Hvw.
  assert (0 < 2 ^ (pw - 1)) by (apply Z.pow_pos_nonneg; lia).
  rewrite Z.pow_add_r by lia. nia.
Qed.

(** C3, as stated, fails: the remainder of 9 by 1335 is 737, which needs all
    of [pw - 1 = 10] bits. *)
Lemma calc_bch_needs_ten_bits :
  0 <= 9 < 2 ^ 5 /\ 2 ^ (11 - 1) <= 1335 < 2 ^ 11 /\ 5 < 11 /\
  calc_bch 9 5 1335 11 = Ok 737 /\ ~ (737 < 2 ^ (11 - 2)).
Proof.
  split; [lia|]. split; [lia|]. split; [lia|].
  split; [reflexivity|]. lia.
Qed.

(** C3, amended: for a value [v] of bit width [vw] and a polynomial [p] of
    bit width [pw], with [pw > vw], the remainder is returned and is less
    than [2^(pw-1)]: its bit width is at most [pw - 1]. *)
Theorem calc_bch_width (v vw p pw : Z) :
  0 <= v < 2 ^ vw -> 2 ^ (pw - 1) <= p < 2 ^ pw -> vw < pw ->
  exists r, calc_bch v vw p pw = Ok r /\ 0 <= r < 2 ^ (pw - 1).
Proof.
  intros Hv Hp Hlt. apply calc_bch_fits; [exact Hv | exact Hp |].
  destruct (Z.lt_ge_cases vw 0) as [Hneg|]; [|lia].
  rewrite (Z.pow_neg_r 2 vw Hneg) in Hv. lia.
Qed.

Lemma calc_bch_width_witness :
  exists r, calc_bch 9 5 1335 11 = Ok r /\ 0 <= r < 2 ^ (11 - 1).
Proof. apply (calc_bch_width 9 5 1335 11); lia. Defined.

(** C6: with the (15,5) polynomial 1335 the remainder of zero is zero, and
    the remainder of each of the 32 format codes is below [2^10]. *)
Theorem calc_bch_format_codes (v : Z) :
  0 <= v <= 31 ->
  calc_bch 0 5 1335 11 = Ok 0 /\
  exists r, calc_bch v 5 1335 11 = Ok r /\ r < 2 ^ 10.
Proof.
  intros Hv. split; [reflexivity|].
  destruct (calc_bch_fits v 5 1335 11) as (r & Hr & Hbound); try lia.
  exists r. split; [exact Hr|]. change (11 - 1) with 10 in Hbound. lia.
Qed.

Lemma calc_bch_format_codes_witness :
  calc_bch 0 5 1335 11 = Ok 0 /\
  exists r, calc_bch 15 5 1335 11 = Ok r /\ r < 2 ^ 10.
Proof. apply (calc_bch_format_codes 15). lia. Defined.

(** The table the driver loop prints. *)
Lemma calc_bch_truth_table :
  (fun v => calc_bch v 5 1335 11) <$> seqZ 0 32 =
  Ok <$> [0; 311; 622; 857; 491; 220; 901; 690; 982; 737; 440; 143; 573;
          778; 83; 356; 667; 940; 245; 450; 880; 583; 286; 41; 333; 122;
          803; 532; 166; 401; 712; 1023].
Proof. vm_compute. reflexivity. Qed.

End Remainder.

(** ** The encoder against its specification *)

Section Encoder.

Variable f : list Z.
Hypothesis f_bytes : Forall is_byte f.

Lemma multiply_is_byte (t x : Z) : is_byte (multiply t x).
Proof.
  unfold multiply. destruct (t =? 0); [unfold is_byte; lia|].
  apply antilog_is_byte.
  pose proof (Z.mod_pos_bound (log_of t + log_of x) 255). lia.
Qed.

Lemma length_sweep (prev : list Z) (d : Z) :
  length (sweep f prev d) = length prev.
Proof. unfold sweep. rewrite length_fmap, length_seq. reflexivity. Qed.

Lemma lookup_sweep (prev : list Z) (d : Z) (j : nat) :
  (j < length prev)%nat ->
  sweep f prev d !! j =
  Some (let m := multiply (Z.lxor d (prev !!! 0%nat))
                          (f !!! (length prev - 1 - j)%nat) in
        if decide (S j < length prev)%nat
        then Z.lxor m (prev !!! S j) else m).
Proof.
  intros Hj. unfold sweep.
  rewrite list_lookup_fmap, lookup_seq_lt by exact Hj. reflexivity.
Qed.

Lemma sweep_bytes (prev : list Z) (d : Z) :
  Forall is_byte prev -> Forall is_byte (sweep f prev d).
Proof.
  intros Hprev. apply Forall_lookup_2. intros j x Hx.
  assert (j < length prev)%nat as Hj.
  { apply lookup_lt_Some in Hx. rewrite length_sweep in Hx. exact Hx. }
  rewrite lookup_sweep in Hx by exact Hj. injection Hx as <-.
  cbv zeta. destruct (decide (S j < length prev)%nat) as [HS|_].
  - apply lxor_is_byte; [apply multiply_is_byte|].
    apply Forall_lookup_total_1; assumption.
  - apply multiply_is_byte.
Qed.

(** The term stored in slot [j] is the product the specification names. *)
Lemma ecc_term_multiply (t : Z) (j : nat) :
  is_byte t -> (j < length f)%nat ->
  ecc_term t f (Z.of_nat (length f)) (Z.of_nat j) =
  Ok (multiply t (f !!! (length f - 1 - j)%nat)).
Proof.
  intros Ht Hj. unfold ecc_term, multiply.
  destruct (t =? 0); [reflexivity|].
  rewrite (getitem_log t Ht). simpl bind.
  rewrite (getitem_total f) by lia. simpl bind.
  replace (Z.to_nat (Z.of_nat (length f) - Z.of_nat j - 1))
    with (length f - 1 - j)%nat by lia.
  rewrite getitem_log
    by (apply Forall_lookup_total_1; [exact f_bytes | lia]).
  simpl bind. apply getitem_antilog.
  pose proof (Z.mod_pos_bound
    (log_of t + log_of (f !!! (length f - 1 - j)%nat)) 255). lia.
Qed.

(** One iteration of the inner loop: slot [j] receives the product, folded
    with slot [j+1] as it stands. *)
Lemma ecc_slot_insert (t : Z) (cur : list Z) (j : nat) :
  is_byte t -> Forall is_byte cur -> length cur = length f ->
  (j < length f)%nat ->
  ecc_slot t f (Z.of_nat (length f)) (Z.of_nat j) cur =
  Ok (<[j := let m := multiply t (f !!! (length f - 1 - j)%nat) in
             if decide (S j < length f)%nat
             then Z.lxor m (cur !!! S j) else m]> cur).
Proof.
  intros Ht Hcur Hlen Hj. unfold ecc_slot.
  rewrite (ecc_term_multiply t j Ht Hj). simpl bind.
  set (m := multiply t (f !!! (length f - 1 - j)%nat)).
  assert (is_byte m) as Hm by apply multiply_is_byte.
  rewrite (setitem_in_range cur _ m Hm) by lia. simpl bind.
  rewrite Nat2Z.id.
  destruct (decide (S j < length f)%nat) as [HS|HS].
  - rewrite (proj2 (Z.ltb_lt (Z.of_nat j + 1) _)) by lia.
    rewrite (getitem_total (<[j:=m]> cur)) by (rewrite length_insert; lia).
    simpl bind.
    rewrite (getitem_total (<[j:=m]> cur)) by (rewrite length_insert; lia).
    simpl bind.
    replace (Z.to_nat (Z.of_nat j + 1)) with (S j) by lia.
    rewrite Nat2Z.id.
    rewrite list_lookup_total_insert_ne by lia.
    rewrite list_lookup_total_insert_eq by lia.
    rewrite setitem_in_range.
    + rewrite Nat2Z.id, list_insert_insert_eq, Z.lxor_comm. reflexivity.
    + apply lxor_is_byte; [|exact Hm].
      apply Forall_lookup_total_1; [exact Hcur | lia].
    + rewrite length_insert. lia.
  - rewrite (proj2 (Z.ltb_ge (Z.of_nat j + 1) _)) by lia. reflexivity.
Qed.

(** The inner loop from slot [k] on: the slots before [k] already hold the
    new sweep, the slots from [k] on still hold the previous one. *)
Lemma ecc_pass_from (prev : list Z) (d : Z) (m k : nat) (cur : list Z) :
  is_byte d -> Forall is_byte prev -> length prev = length f ->
  (k + m = length f)%nat ->
  Forall is_byte cur -> length cur = length f ->
  (forall i, (i < k)%nat -> cur !! i = sweep f prev d !! i) ->
  (forall i, (k <= i)%nat -> cur !! i = prev !! i) ->
  for_each (seqZ (Z.of_nat k) (Z.of_nat m))
    (ecc_slot (Z.lxor d (prev !!! 0%nat)) f (Z.of_nat (length f))) cur =
  Ok (sweep f prev d).
Proof.
  intros Hd Hprev Hlp. revert k cur.
  induction m as [|m IH]; intros k cur Hkm Hcur Hlc Hnew Hold.
  - simpl. f_equal. apply list_eq. intros i.
    destruct (decide (i < k)%nat) as [Hi|Hi]; [apply Hnew, Hi|].
    rewrite (lookup_ge_None_2 cur) by lia.
    rewrite lookup_ge_None_2 by (rewrite length_sweep; lia). reflexivity.
  - rewrite seqZ_cons by lia.
    replace (Z.succ (Z.of_nat k)) with (Z.of_nat (S k)) by lia.
    replace (Z.pred (Z.of_nat (S m))) with (Z.of_nat m) by lia.
    simpl for_each.
    assert (is_byte (Z.lxor d (prev !!! 0%nat))) as Ht.
    { apply lxor_is_byte; [exact Hd|].
      apply Forall_lookup_total_1; [exact Hprev | lia]. }
    rewrite (ecc_slot_insert _ cur k Ht Hcur Hlc) by lia. simpl bind.
    assert (cur !!! S k = prev !!! S k) as Hnext.
    { rewrite !list_lookup_total_alt, (Hold (S k)) by lia. reflexivity. }
    rewrite Hnext.
    assert (sweep f prev d !! k =
            Some (let m0 := multiply (Z.lxor d (prev !!! 0%nat))
                                     (f !!! (length f - 1 - k)%nat) in
                  if decide (S k < length f)%nat
                  then Z.lxor m0 (prev !!! S k) else m0)) as Hk.
    { rewrite lookup_sweep by lia. rewrite Hlp. reflexivity. }
    apply IH.
    + lia.
    + apply Forall_insert; [exact Hcur|].
      apply (Forall_lookup_1 _ _ _ _ (sweep_bytes prev d Hprev) Hk).
    + rewrite length_insert. exact Hlc.
    + intros i Hi. destruct (decide (i = k)) as [->|Hne].
      * rewrite list_lookup_insert_eq by lia. symmetry. exact Hk.
      * rewrite list_lookup_insert_ne by lia. apply Hnew. lia.
    + intros i Hi. rewrite list_lookup_insert_ne by lia. apply Hold. lia.
Qed.

(** The whole inner loop is one sweep of the specification. *)
Lemma ecc_pass_sweep (prev : list Z) (d : Z) :
  is_byte d -> Forall is_byte prev -> length prev = length f ->
  for_each (range (Z.of_nat (length f)))
    (ecc_slot (Z.lxor d (prev !!! 0%nat)) f (Z.of_nat (length f))) prev =
  Ok (sweep f prev d).
Proof.
  intros Hd Hprev Hlp. unfold range.
  apply (ecc_pass_from prev d (length f) 0 prev); try assumption.
  - reflexivity.
  - intros i Hi. lia.
  - reflexivity.
Qed.

(** The outer loop from byte [s] on, over [m] bytes. *)
Lemma ecc_loop_from (data : list Z) (m s : nat) (acc : list Z) :
  Forall is_byte data -> (0 < length f)%nat ->
  (s + m <= length data)%nat ->
  Forall is_byte acc -> length acc = length f ->
  for_each (seqZ (Z.of_nat s) (Z.of_nat m))
    (fun i ecc =>
       let! d := getitem data i in
       let! e0 := getitem ecc 0 in
       let t := Z.lxor d e0 in
       for_each (range (Z.of_nat (length f)))
                (ecc_slot t f (Z.of_nat (length f))) ecc) acc =
  Ok (foldl (sweep f) acc (take m (drop s data))).
Proof.
  intros Hdata Hpos. revert s acc.
  induction m as [|m IH]; intros s acc Hsm Hacc Hla.
  - reflexivity.
  - rewrite seqZ_cons by lia.
    replace (Z.succ (Z.of_nat s)) with (Z.of_nat (S s)) by lia.
    replace (Z.pred (Z.of_nat (S m))) with (Z.of_nat m) by lia.
    simpl for_each.
    rewrite (getitem_total data) by lia. simpl bind.
    rewrite (getitem_total acc) by lia. simpl bind.
    rewrite Nat2Z.id. change (Z.to_nat 0) with 0%nat.
    assert (is_byte (data !!! s)) as Hd
      by (apply Forall_lookup_total_1; [exact Hdata | lia]).
    rewrite (ecc_pass_sweep acc (data !!! s) Hd Hacc Hla). simpl bind.
    rewrite IH.
    + rewrite (drop_S data (data !!! s) s)
        by (apply list_lookup_lookup_total_lt; lia).
      reflexivity.
    + lia.
    + apply sweep_bytes, Hacc.
    + rewrite length_sweep. exact Hla.
Qed.

End Encoder.

(** C4: on a codeword of bytes and as many factors as ecc bytes (at least
    one), the ecc loop returns what the forward sweeps of the specification
    give: from the all-zero accumulator, for each codeword byte [d] in order,
    [t = d XOR ecc[0]] and every slot [j] becomes [multiply(t,
    factors[ecc_size-1-j])], XORed with slot [j+1] of the previous byte's
    sweep when there is one. *)
Theorem calc_ecc_forward_sweep (data : list Z) (data_size ecc_size : Z)
    (f : list Z) :
  Forall is_byte data -> Forall is_byte f ->
  0 <= data_size <= Z.of_nat (length data) ->
  0 < ecc_size -> Z.of_nat (length f) = ecc_size ->
  calc_ecc data data_size ecc_size f =
  Ok (rs_encode (take (Z.to_nat data_size) data) f).
Proof.
  intros Hdata Hf Hsize Hpos Hlen. subst ecc_size.
  unfold calc_ecc, bytearray, ecc_loop, rs_encode, range.
  rewrite (proj2 (Z.ltb_ge (Z.of_nat (length f)) 0)) by lia. simpl bind.
  rewrite Nat2Z.id.
  replace data_size with (Z.of_nat (Z.to_nat data_size)) at 1 by lia.
  rewrite (ecc_loop_from f Hf data (Z.to_nat data_size) 0).
  - reflexivity.
  - exact Hdata.
  - lia.
  - lia.
  - apply Forall_replicate. unfold is_byte. lia.
  - apply length_replicate.
Qed.

Lemma calc_ecc_forward_sweep_witness :
  calc_ecc [142; 164; 186] 3 5 [228; 48; 15; 111; 62] =
  Ok (rs_encode (take (Z.to_nat 3) [142; 164; 186]) [228; 48; 15; 111; 62]).
Proof.
  apply (calc_ecc_forward_sweep [142; 164; 186] 3 5 [228; 48; 15; 111; 62]).
  - repeat constructor; unfold is_byte; lia.
  - repeat constructor; unfold is_byte; lia.
  - simpl. lia.
  - lia.
  - reflexivity.
Defined.

(** The worked examples of the script's comments. *)
Lemma rs_test_examples :
  rs_test [142; 164; 186] 3 5 = Ok [114; 25; 5; 88; 102] /\
  rs_test [66] 3 5 = Ok [138; 234; 82; 82; 95] /\
  rs_test [147; 130; 141; 194] 5 7 = Ok [147; 186; 88; 236; 56; 227; 209].
Proof. repeat split; vm_compute; reflexivity. Qed.

(** ** More on the field: range, inverses, the field polynomial *)

Section Field.

Lemma byte_cases2 (P : Z -> Z -> Prop) `{forall x y, Decision (P x y)} :
  bool_decide (Forall (fun x => Forall (P x) (seqZ 0 256)) (seqZ 0 256)) = true ->
  forall x y, is_byte x -> is_byte y -> P x y.
Proof.
  intros Hall x y Hx Hy. apply bool_decide_eq_true_1 in Hall.
  rewrite Forall_seqZ in Hall. unfold is_byte in Hx, Hy.
  specialize (Hall x ltac:(lia)). rewrite Forall_seqZ in Hall.
  apply Hall. lia.
Qed.

Lemma mod255_index (x : Z) : 0 <= x mod 255 < 256.
Proof. pose proof (Z.mod_pos_bound x 255). lia. Qed.

Lemma galois_mult_product (a b : Z) :
  is_byte a -> is_byte b -> galois_mult a b = Ok (product a b).
Proof. apply galois_mult_bytes. Qed.

Lemma product_nonzero (a b : Z) : 1 <= product a b <= 255.
Proof. apply antilog_nonzero, mod255_index. Qed.

(** X1: on bytes the product is always returned and is never zero, zero
    operands included. *)
Theorem galois_mult_never_zero (a b : Z) :
  is_byte a -> is_byte b ->
  exists r, galois_mult a b = Ok r /\ 1 <= r <= 255.
Proof.
  intros Ha Hb. exists (product a b).
  split; [apply galois_mult_product; assumption | apply product_nonzero].
Qed.

Lemma galois_mult_never_zero_witness :
  exists r, galois_mult 0 0 = Ok r /\ 1 <= r <= 255.
Proof. apply (galois_mult_never_zero 0 0); unfold is_byte; lia. Defined.

Lemma getitem_out_of_range (s : list Z) (i : Z) :
  i < - Z.of_nat (length s) \/ Z.of_nat (length s) <= i ->
  getitem s i = Raise IndexError.
Proof.
  intros Hi. unfold getitem, position.
  destruct (Z.leb_spec 0 i).
  - rewrite (proj2 (Z.ltb_ge i _)) by lia. reflexivity.
  - rewrite (proj2 (Z.leb_gt 0 _)) by lia. reflexivity.
Qed.

Lemma getitem_negative (s : list Z) (i : Z) :
  - Z.of_nat (length s) <= i < 0 ->
  getitem s i = getitem s (Z.of_nat (length s) + i).
Proof.
  intros Hi. unfold getitem, position.
  rewrite (proj2 (Z.leb_gt 0 i)) by lia.
  rewrite (proj2 (Z.leb_le 0 (Z.of_nat (length s) + i))) by lia.
  rewrite (proj2 (Z.ltb_lt (Z.of_nat (length s) + i) _)) by lia.
  reflexivity.
Qed.

(** X2: an operand outside [-256, 255] is an [IndexError], whichever
    operand it is (the other being a subscript the log table accepts); an
    operand in [-256, -1] is read from the end of the log table, so that
    [a - 256] multiplies like the byte [a]. *)
Theorem galois_mult_operand_range (a b : Z) :
  is_byte b ->
  (a < -256 \/ 255 < a ->
   galois_mult a b = Raise IndexError /\ galois_mult b a = Raise IndexError) /\
  (is_byte a ->
   galois_mult (a - 256) b = galois_mult a b /\
   galois_mult b (a - 256) = galois_mult b a).
Proof.
  intros Hb. split.
  - intros Ha. unfold galois_mult.
    rewrite (getitem_out_of_range galois_log a)
      by (rewrite length_galois_log; lia).
    rewrite (getitem_log b Hb). split; reflexivity.
  - intros Ha. unfold galois_mult.
    rewrite (getitem_negative galois_log (a - 256))
      by (rewrite length_galois_log; unfold is_byte in Ha; lia).
    rewrite length_galois_log.
    replace (Z.of_nat 256 + (a - 256)) with a by lia.
    split; reflexivity.
Qed.

Lemma galois_mult_operand_range_witness :
  (300 < -256 \/ 255 < 300 ->
   galois_mult 300 7 = Raise IndexError /\ galois_mult 7 300 = Raise IndexError) /\
  (is_byte 300 ->
   galois_mult (300 - 256) 7 = galois_mult 300 7 /\
   galois_mult 7 (300 - 256) = galois_mult 7 300).
Proof. apply (galois_mult_operand_range 300 7). unfold is_byte. lia. Defined.

(** X3: every nonzero element has an inverse, a nonzero element as well. *)
Theorem galois_mult_inverse (a : Z) :
  1 <= a <= 255 ->
  exists b, 1 <= b <= 255 /\ galois_mult a b = Ok 1 /\ galois_mult b a = Ok 1.
Proof.
  intros Ha. set (b := antilog_of ((- log_of a) mod 255)).
  assert (1 <= b <= 255) as Hb by apply antilog_nonzero, mod255_index.
  assert (is_byte a) as Ha' by (unfold is_byte; lia).
  assert (is_byte b) as Hb' by (unfold is_byte; lia).
  assert (product a b = 1) as Hab.
  { unfold product.
    rewrite <- (Z.add_mod_idemp_r _ (log_of b)) by lia.
    unfold b at 1. rewrite log_antilog
      by (pose proof (Z.mod_pos_bound (- log_of a) 255); lia).
    rewrite Z.add_mod_idemp_r by lia.
    replace (log_of a + - log_of a) with 0 by lia. reflexivity. }
  exists b. split; [exact Hb|].
  rewrite !galois_mult_product by assumption.
  split; [rewrite Hab; reflexivity|].
  unfold product. rewrite Z.add_comm. fold (product a b).
  rewrite Hab. reflexivity.
Qed.

Lemma galois_mult_inverse_witness :
  exists b, 1 <= b <= 255 /\ galois_mult 142 b = Ok 1 /\ galois_mult b 142 = Ok 1.
Proof. apply (galois_mult_inverse 142). lia. Defined.

(** X27: the two tables are inverse to each other on the nonzero elements:
    the antilog of the logarithm of [a] is [a], and the logarithm of the
    antilog of [k] is [k] modulo 255; the logarithms read are in [1, 255]
    and the antilogs are not zero. *)
Theorem tables_round_trip (a k : Z) :
  1 <= a <= 255 -> 0 <= k < 255 ->
  (exists l, getitem galois_log a = Ok l /\ 1 <= l <= 255 /\
             getitem galois_antilog (l mod 255) = Ok a) /\
  (exists x, getitem galois_antilog k = Ok x /\ 1 <= x <= 255 /\
             exists l, getitem galois_log x = Ok l /\ l mod 255 = k).
Proof.
  intros Ha Hk. split.
  - exists (log_of a).
    split; [apply getitem_log; unfold is_byte; lia|].
    split.
    + revert a Ha.
      enough (forall a, is_byte a -> a <> 0 -> 1 <= log_of a <= 255) as Hb
        by (intros a Ha; apply Hb; unfold is_byte; lia).
      apply (byte_cases (fun a => a <> 0 -> 1 <= log_of a <= 255)).
      vm_compute. reflexivity.
    + rewrite getitem_antilog by apply mod255_index.
      rewrite antilog_log by exact Ha. reflexivity.
  - exists (antilog_of k).
    pose proof (antilog_nonzero k ltac:(lia)) as Hx.
    split; [apply getitem_antilog; lia|]. split; [exact Hx|].
    exists (log_of (antilog_of k)).
    split; [apply getitem_log; unfold is_byte; lia|].
    apply log_antilog, Hk.
Qed.

Lemma tables_round_trip_witness :
  (exists l, getitem galois_log 142 = Ok l /\ 1 <= l <= 255 /\
             getitem galois_antilog (l mod 255) = Ok 142) /\
  (exists x, getitem galois_antilog 37 = Ok x /\ 1 <= x <= 255 /\
             exists l, getitem galois_log x = Ok l /\ l mod 255 = 37).
Proof. apply (tables_round_trip 142 37); lia. Defined.

(** The antilog table is generated by doubling under the polynomial 301. *)
Lemma antilog_succ (z : Z) :
  antilog_of ((z + 1) mod 255) = xtime (antilog_of (z mod 255)).
Proof.
  rewrite <- Z.add_mod_idemp_l by lia.
  generalize (z mod 255) (Z.mod_pos_bound z 255 ltac:(lia)).
  intros k Hk. revert k Hk.
  enough (forall k, is_byte k -> k <> 255 ->
            antilog_of ((k + 1) mod 255) = xtime (antilog_of k)) as Hb
    by (intros k Hk; apply Hb; unfold is_byte; lia).
  apply (byte_cases (fun k => k <> 255 ->
            antilog_of ((k + 1) mod 255) = xtime (antilog_of k))).
  vm_compute. reflexivity.
Qed.

Lemma xtime_nonzero (x : Z) : 1 <= x <= 255 -> 1 <= xtime x <= 255.
Proof.
  revert x.
  enough (forall x, is_byte x -> x <> 0 -> 1 <= xtime x <= 255) as Hb
    by (intros x Hx; apply Hb; unfold is_byte; lia).
  apply (byte_cases (fun x => x <> 0 -> 1 <= xtime x <= 255)).
  vm_compute. reflexivity.
Qed.

Lemma xtime_is_byte (x : Z) : is_byte x -> is_byte (xtime x).
Proof.
  revert x. apply (byte_cases (fun x => is_byte (xtime x))).
  vm_compute. reflexivity.
Qed.

Lemma xtime_lxor (x y : Z) :
  is_byte x -> is_byte y ->
  xtime (Z.lxor x y) = Z.lxor (xtime x) (xtime y).
Proof.
  revert x y.
  apply (byte_cases2
    (fun x y => xtime (Z.lxor x y) = Z.lxor (xtime x) (xtime y))
    (H := fun x y => Z.eq_dec _ _)).
  vm_compute. reflexivity.
Qed.

(** X4: multiplying a nonzero element by 2 is doubling, reduced by the
    field polynomial 301 when the result leaves the byte. *)
Theorem galois_mult_two (a : Z) :
  1 <= a <= 255 ->
  galois_mult 2 a = Ok (if a <? 128 then 2 * a else Z.lxor (2 * a) 301) /\
  galois_mult a 2 = Ok (if a <? 128 then 2 * a else Z.lxor (2 * a) 301).
Proof.
  intros Ha.
  assert (is_byte a) as Ha' by (unfold is_byte; lia).
  assert (is_byte 2) as H2 by (unfold is_byte; lia).
  rewrite !galois_mult_product by assumption.
  assert (product a 2 = xtime a) as Heq.
  { unfold product. change (log_of 2) with 1.
    rewrite antilog_succ, antilog_log by exact Ha. reflexivity. }
  split; [|rewrite Heq; reflexivity].
  unfold product. rewrite Z.add_comm. fold (product a 2).
  rewrite Heq. reflexivity.
Qed.

Lemma galois_mult_two_witness :
  galois_mult 2 200 = Ok (if 200 <? 128 then 2 * 200 else Z.lxor (2 * 200) 301) /\
  galois_mult 200 2 = Ok (if 200 <? 128 then 2 * 200 else Z.lxor (2 * 200) 301).
Proof. apply (galois_mult_two 200). lia. Defined.

End Field.

(** ** Distributivity *)

Section Distributivity.

Lemma antilog_add_iter (z : Z) (k : nat) :
  antilog_of ((z + Z.of_nat k) mod 255) =
  Nat.iter k xtime (antilog_of (z mod 255)).
Proof.
  induction k as [|k IH].
  - rewrite Z.add_0_r. reflexivity.
  - replace (z + Z.of_nat (S k)) with (z + Z.of_nat k + 1) by lia.
    rewrite antilog_succ, IH. reflexivity.
Qed.

(** A product by [a] is [log a] doublings of the other operand. *)
Lemma product_iter (a b : Z) :
  1 <= b <= 255 ->
  product a b = Nat.iter (Z.to_nat (log_of a mod 255)) xtime b.
Proof.
  intros Hb. unfold product.
  rewrite Z.add_comm, <- Z.add_mod_idemp_r by lia.
  rewrite <- (Z2Nat.id (log_of a mod 255))
    by (pose proof (Z.mod_pos_bound (log_of a) 255); lia).
  rewrite antilog_add_iter, Nat2Z.id, antilog_log by exact Hb.
  reflexivity.
Qed.

Lemma iter_xtime_is_byte (k : nat) (x : Z) :
  is_byte x -> is_byte (Nat.iter k xtime x).
Proof.
  intros Hx. induction k as [|k IH]; [exact Hx|].
  simpl. apply xtime_is_byte, IH.
Qed.

Lemma iter_xtime_lxor (k : nat) (x y : Z) :
  is_byte x -> is_byte y ->
  Nat.iter k xtime (Z.lxor x y) =
  Z.lxor (Nat.iter k xtime x) (Nat.iter k xtime y).
Proof.
  intros Hx Hy. induction k as [|k IH]; [reflexivity|].
  simpl. rewrite IH. apply xtime_lxor; apply iter_xtime_is_byte; assumption.
Qed.

Lemma lxor_nonzero (b c : Z) :
  is_byte b -> is_byte c -> b <> c -> 1 <= Z.lxor b c <= 255.
Proof.
  intros Hb Hc Hne. pose proof (lxor_is_byte b c Hb Hc) as Hx.
  unfold is_byte in Hx.
  assert (Z.lxor b c <> 0) by (intros H0; apply Hne, Z.lxor_eq, H0).
  lia.
Qed.

Lemma product_lxor (a b c : Z) :
  1 <= b <= 255 -> 1 <= c <= 255 -> b <> c ->
  product a (Z.lxor b c) = Z.lxor (product a b) (product a c).
Proof.
  intros Hb Hc Hne.
  assert (is_byte b) as Hb' by (unfold is_byte; lia).
  assert (is_byte c) as Hc' by (unfold is_byte; lia).
  rewrite !product_iter by (assumption || apply lxor_nonzero; assumption).
  apply iter_xtime_lxor; assumption.
Qed.

Lemma product_comm (a b : Z) : product a b = product b a.
Proof. unfold product. rewrite Z.add_comm. reflexivity. Qed.

(** X5: the product distributes over XOR, the field's addition, on either
    side, for nonzero summands whose sum is not zero (zero being no
    absorbing element here, see C10). *)
Theorem galois_mult_distributes (a b c : Z) :
  is_byte a -> 1 <= b <= 255 -> 1 <= c <= 255 -> b <> c ->
  exists ab ac,
    galois_mult a b = Ok ab /\ galois_mult a c = Ok ac /\
    galois_mult a (Z.lxor b c) = Ok (Z.lxor ab ac) /\
    galois_mult (Z.lxor b c) a = Ok (Z.lxor ab ac).
Proof.
  intros Ha Hb Hc Hne.
  assert (is_byte b) as Hb' by (unfold is_byte; lia).
  assert (is_byte c) as Hc' by (unfold is_byte; lia).
  pose proof (lxor_is_byte b c Hb' Hc') as Hx.
  exists (product a b), (product a c).
  rewrite !galois_mult_product by assumption.
  rewrite (product_comm (Z.lxor b c) a).
  rewrite product_lxor by assumption.
  repeat split; reflexivity.
Qed.

Lemma galois_mult_distributes_witness :
  exists ab ac,
    galois_mult 29 142 = Ok ab /\ galois_mult 29 164 = Ok ac /\
    galois_mult 29 (Z.lxor 142 164) = Ok (Z.lxor ab ac) /\
    galois_mult (Z.lxor 142 164) 29 = Ok (Z.lxor ab ac).
Proof.
  apply (galois_mult_distributes 29 142 164); unfold is_byte; lia.
Defined.

End Distributivity.

(** ** Powers *)

Section Powers.

(** The loop of [galois_pow]: [n + 1] further products by [a]. *)
Lemma galois_pow_loop (a : Z) (n : nat) (s r : Z) :
  is_byte a -> is_byte r ->
  for_each (seqZ s (Z.of_nat (S n))) (fun _ r => galois_mult r a) r =
  Ok (antilog_of ((log_of r + Z.of_nat (S n) * log_of a) mod 255)).
Proof.
  intros Ha. revert s r. induction n as [|n IH]; intros s r Hr.
  - rewrite seqZ_cons, seqZ_nil by lia. cbn [for_each].
    rewrite galois_mult_product by assumption. cbn [bind for_each].
    unfold product. change (Z.of_nat 1) with 1. rewrite Z.mul_1_l.
    reflexivity.
  - rewrite seqZ_cons by lia.
    replace (Z.pred (Z.of_nat (S (S n)))) with (Z.of_nat (S n)) by lia.
    simpl for_each. rewrite galois_mult_product by assumption. simpl bind.
    rewrite IH
      by (pose proof (product_nonzero r a); unfold is_byte; lia).
    do 2 f_equal.
    rewrite <- Z.add_mod_idemp_l by lia.
    unfold product. rewrite log_antilog
      by (pose proof (Z.mod_pos_bound (log_of r + log_of a) 255); lia).
    rewrite Z.add_mod_idemp_l by lia. f_equal. lia.
Qed.

Lemma galois_pow_bytes (a b : Z) :
  is_byte a -> 2 <= b ->
  galois_pow a b = Ok (antilog_of ((b * log_of a) mod 255)).
Proof.
  intros Ha Hb. unfold galois_pow, range.
  rewrite (proj2 (Z.eqb_neq b 0)), (proj2 (Z.eqb_neq b 1)) by lia.
  replace (b - 1) with (Z.of_nat (S (Z.to_nat (b - 2)))) by lia.
  rewrite galois_pow_loop by assumption.
  rewrite Nat2Z.inj_succ, Z2Nat.id by lia.
  replace (log_of a + Z.succ (b - 2) * log_of a) with (b * log_of a)
    by ring.
  reflexivity.
Qed.

Lemma galois_pow_closed (a b : Z) :
  1 <= a <= 255 -> 0 <= b ->
  galois_pow a b = Ok (antilog_of ((b * log_of a) mod 255)).
Proof.
  intros Ha Hb.
  destruct (Z.eq_dec b 0) as [->|H0]; [reflexivity|].
  destruct (Z.eq_dec b 1) as [->|H1].
  - rewrite Z.mul_1_l, antilog_log by exact Ha. reflexivity.
  - apply galois_pow_bytes; [unfold is_byte|]; lia.
Qed.

(** X6: a power of a nonzero element is read off the tables: the exponent
    times the logarithm, modulo 255; it is returned and is not zero. *)
Theorem galois_pow_log (a b : Z) :
  1 <= a <= 255 -> 0 <= b ->
  exists r,
    galois_pow a b = Ok r /\ 1 <= r <= 255 /\
    getitem galois_antilog ((b * log_of a) mod 255) = Ok r.
Proof.
  intros Ha Hb. exists (antilog_of ((b * log_of a) mod 255)).
  split; [apply galois_pow_closed; assumption|].
  split; [apply antilog_nonzero, mod255_index|].
  apply getitem_antilog, mod255_index.
Qed.

Lemma galois_pow_log_witness :
  exists r,
    galois_pow 142 9 = Ok r /\ 1 <= r <= 255 /\
    getitem galois_antilog ((9 * log_of 142) mod 255) = Ok r.
Proof. apply (galois_pow_log 142 9); lia. Defined.

(** X7: powers of a nonzero element multiply by adding the exponents, and
    the 255th power is 1, so that exponents count modulo 255. *)
Theorem galois_pow_add (a b c : Z) :
  1 <= a <= 255 -> 0 <= b -> 0 <= c ->
  exists x y,
    galois_pow a b = Ok x /\ galois_pow a c = Ok y /\
    galois_mult x y = galois_pow a (b + c) /\
    galois_pow a 255 = Ok 1 /\
    galois_pow a (b + 255) = Ok x.
Proof.
  intros Ha Hb Hc.
  exists (antilog_of ((b * log_of a) mod 255)),
         (antilog_of ((c * log_of a) mod 255)).
  rewrite !galois_pow_closed by lia.
  split; [reflexivity|]. split; [reflexivity|].
  split; [|split].
  - rewrite galois_mult_product
      by (apply antilog_is_byte, mod255_index).
    f_equal. unfold product.
    rewrite <- Z.add_mod_idemp_l, <- (Z.add_mod_idemp_r _ (log_of _)) by lia.
    rewrite !log_antilog
      by (match goal with |- context [?x mod 255] =>
            pose proof (Z.mod_pos_bound x 255) end; lia).
    rewrite Z.add_mod_idemp_l, Z.add_mod_idemp_r by lia.
    f_equal. f_equal. lia.
  - rewrite (Z.mul_comm 255), Z.mod_mul by lia. reflexivity.
  - do 2 f_equal.
    replace ((b + 255) * log_of a) with (b * log_of a + log_of a * 255) by lia.
    apply Z.mod_add. lia.
Qed.

Lemma galois_pow_add_witness :
  exists x y,
    galois_pow 29 3 = Ok x /\ galois_pow 29 5 = Ok y /\
    galois_mult x y = galois_pow 29 (3 + 5) /\
    galois_pow 29 255 = Ok 1 /\
    galois_pow 29 (3 + 255) = Ok x.
Proof. apply (galois_pow_add 29 3 5); lia. Defined.

(** X8: 2 generates the nonzero elements: its powers are the entries of the
    antilog table, and every nonzero element is the power of 2 whose
    exponent is its logarithm. *)
Theorem galois_pow_two (a k : Z) :
  1 <= a <= 255 -> 0 <= k ->
  getitem galois_antilog (k mod 255) = galois_pow 2 k /\
  galois_pow 2 (log_of a) = Ok a.
Proof.
  intros Ha Hk.
  assert (0 <= log_of a) as Hlog.
  { revert a Ha.
    enough (forall a, is_byte a -> a <> 0 -> 0 <= log_of a) as Hb
      by (intros a Ha; apply Hb; unfold is_byte; lia).
    apply (byte_cases (fun a => a <> 0 -> 0 <= log_of a)).
    vm_compute. reflexivity. }
  rewrite !galois_pow_closed by lia.
  change (log_of 2) with 1. rewrite !Z.mul_1_r.
  split; [apply getitem_antilog, mod255_index|].
  rewrite antilog_log by exact Ha. reflexivity.
Qed.

Lemma galois_pow_two_witness :
  getitem galois_antilog (300 mod 255) = galois_pow 2 300 /\
  galois_pow 2 (log_of 142) = Ok 142.
Proof. apply (galois_pow_two 142 300); lia. Defined.

(** X9: the edges of [galois_pow]: a negative exponent does not loop and
    gives the base back; the powers of zero are 1, 0, 1, 1, ... since the
    product of zero with itself is 1. *)
Theorem galois_pow_edges (a b : Z) :
  (b < 0 -> galois_pow a b = Ok a) /\
  (2 <= b -> galois_pow 0 b = Ok 1) /\
  galois_pow 0 0 = Ok 1 /\ galois_pow 0 1 = Ok 0.
Proof.
  split; [|split; [|split; reflexivity]].
  - intros Hb. unfold galois_pow, range.
    rewrite (proj2 (Z.eqb_neq b 0)), (proj2 (Z.eqb_neq b 1)) by lia.
    rewrite seqZ_nil by lia. reflexivity.
  - intros Hb. rewrite galois_pow_bytes by (unfold is_byte; lia).
    rewrite log_zero.
    replace (b * -255) with ((- b) * 255) by lia.
    rewrite Z.mod_mul by lia. reflexivity.
Qed.

Lemma galois_pow_edges_witness :
  (-4 < 0 -> galois_pow 9 (-4) = Ok 9) /\
  (2 <= -4 -> galois_pow 0 (-4) = Ok 1) /\
  galois_pow 0 0 = Ok 1 /\ galois_pow 0 1 = Ok 0.
Proof. apply (galois_pow_edges 9 (-4)). Defined.

End Powers.

(** ** The general construction of a factor table *)

Section Construction.

Local Abbreviation factor_body i :=
  (fun j factors =>
     let! fj := getitem factors j in
     let! pw := galois_pow 2 i in
     let! m := galois_mult fj pw in
     let! factors := setitem factors j m in
     if 0 <? j then
       let! fj := getitem factors j in
       let! fj1 := getitem factors (j - 1) in
       setitem factors j (Z.lxor fj fj1)
     else Ok factors).

(** The root of round [i]. *)
Local Abbreviation root i := (antilog_of (Z.of_nat i mod 255)).

Lemma product_is_byte (a b : Z) : is_byte (product a b).
Proof. pose proof (product_nonzero a b). unfold is_byte. lia. Qed.

Lemma length_factor_round g i f : length (factor_round g i f) = length f.
Proof. apply length_imap. Qed.

Lemma lookup_factor_round g i f (j : nat) :
  (j < length f)%nat ->
  factor_round g i f !! j =
  Some (if decide (j < i)%nat then
          if decide (0 < j)%nat
          then Z.lxor (product (f !!! j) g) (f !!! (j - 1)%nat)
          else product (f !!! j) g
        else f !!! j).
Proof.
  intros Hj. unfold factor_round.
  rewrite list_lookup_imap, (list_lookup_lookup_total_lt f j Hj).
  reflexivity.
Qed.

Lemma factor_round_bytes g i f :
  Forall is_byte f -> Forall is_byte (factor_round g i f).
Proof.
  intros Hf. apply Forall_lookup_2. intros j x Hx.
  assert (j < length f)%nat as Hj.
  { apply lookup_lt_Some in Hx. rewrite length_factor_round in Hx. exact Hx. }
  rewrite lookup_factor_round in Hx by exact Hj. injection Hx as <-.
  destruct (decide (j < i)%nat); [|apply Forall_lookup_total_1; assumption].
  destruct (decide (0 < j)%nat); [|apply product_is_byte].
  apply lxor_is_byte; [apply product_is_byte|].
  apply Forall_lookup_total_1; [assumption | lia].
Qed.

(** One iteration of the inner loop of round [i]. *)
Lemma factor_slot (i j : nat) (cur : list Z) :
  Forall is_byte cur -> (j < length cur)%nat ->
  factor_body (Z.of_nat i) (Z.of_nat j) cur =
  Ok (<[j := if decide (0 < j)%nat
             then Z.lxor (product (cur !!! j) (root i))
                         (cur !!! (j - 1)%nat)
             else product (cur !!! j) (root i)]> cur).
Proof.
  intros Hcur Hj. cbv beta.
  rewrite (getitem_total cur) by lia. simpl bind. rewrite Nat2Z.id.
  rewrite galois_pow_closed by lia. simpl bind.
  change (log_of 2) with 1. rewrite Z.mul_1_r.
  assert (is_byte (cur !!! j)) as Hcj
    by (apply Forall_lookup_total_1; assumption).
  rewrite galois_mult_product
    by (assumption || apply antilog_is_byte, mod255_index).
  simpl bind.
  rewrite setitem_in_range by (apply product_is_byte || lia).
  simpl bind. rewrite Nat2Z.id.
  destruct (decide (0 < j)%nat) as [Hpos|Hzero].
  - rewrite (proj2 (Z.ltb_lt 0 (Z.of_nat j))) by lia.
    rewrite (getitem_total (<[j:=_]> cur)) by (rewrite length_insert; lia).
    simpl bind.
    rewrite (getitem_total (<[j:=_]> cur)) by (rewrite length_insert; lia).
    simpl bind.
    replace (Z.to_nat (Z.of_nat j - 1)) with (j - 1)%nat by lia.
    rewrite Nat2Z.id.
    rewrite list_lookup_total_insert_eq by lia.
    rewrite list_lookup_total_insert_ne by lia.
    rewrite setitem_in_range.
    + rewrite Nat2Z.id, list_insert_insert_eq. reflexivity.
    + apply lxor_is_byte; [apply product_is_byte|].
      apply Forall_lookup_total_1; [assumption | lia].
    + rewrite length_insert. lia.
  - rewrite (proj2 (Z.ltb_ge 0 (Z.of_nat j))) by lia. reflexivity.
Qed.

(** The inner loop from slot [k - 1] down: the slots from [k] on already
    hold the round's result, the slots below still hold the table as the
    round found it. *)
Lemma factor_round_from (i : nat) (f : list Z) (k : nat) (cur : list Z) :
  Forall is_byte f -> (k <= i)%nat -> (k <= length f)%nat ->
  Forall is_byte cur -> length cur = length f ->
  (forall j, (j < k)%nat -> cur !! j = f !! j) ->
  (forall j, (k <= j)%nat -> cur !! j = factor_round (root i) i f !! j) ->
  for_each (reverse (seqZ 0 (Z.of_nat k))) (factor_body (Z.of_nat i)) cur =
  Ok (factor_round (root i) i f).
Proof.
  intros Hf. revert cur.
  induction k as [|k IH]; intros cur Hki Hkn Hcur Hlen Hold Hnew.
  - simpl. f_equal. apply list_eq. intros j. apply Hnew. lia.
  - rewrite seqZ_S, reverse_snoc, Z.add_0_l.
    cbn [for_each]. rewrite factor_slot by (assumption || lia).
    cbn [bind].
    assert (cur !!! k = f !!! k) as Hk
      by (rewrite !list_lookup_total_alt, Hold by lia; reflexivity).
    assert (cur !!! (k - 1)%nat = f !!! (k - 1)%nat) as Hk1.
    { destruct (decide (k - 1 < S k)%nat); [|lia].
      rewrite !list_lookup_total_alt, Hold by lia. reflexivity. }
    rewrite Hk, Hk1.
    assert (factor_round (root i) i f !! k =
            Some (if decide (0 < k)%nat
                  then Z.lxor (product (f !!! k) (root i))
                              (f !!! (k - 1)%nat)
                  else product (f !!! k) (root i))) as Hround.
    { rewrite lookup_factor_round by lia.
      destruct (decide (k < i)%nat); [reflexivity | lia]. }
    apply IH.
    + lia.
    + lia.
    + apply Forall_insert; [exact Hcur|].
      apply (Forall_lookup_1 _ _ _ _ (factor_round_bytes _ i f Hf) Hround).
    + rewrite length_insert. exact Hlen.
    + intros j Hj. rewrite list_lookup_insert_ne by lia. apply Hold. lia.
    + intros j Hj. destruct (decide (j = k)) as [->|Hne].
      * rewrite list_lookup_insert_eq by lia. symmetry. exact Hround.
      * rewrite list_lookup_insert_ne by lia. apply Hnew. lia.
Qed.

(** A whole round, for [i] up to the length of the table. *)
Lemma factor_round_loop (i : nat) (f : list Z) :
  Forall is_byte f -> (i <= length f)%nat ->
  for_each (range_down (Z.of_nat i - 1)) (factor_body (Z.of_nat i)) f =
  Ok (factor_round (root i) i f).
Proof.
  intros Hf Hi. unfold range_down.
  replace (Z.of_nat i - 1 + 1) with (Z.of_nat i) by lia.
  apply factor_round_from; try assumption; try lia.
  - reflexivity.
  - intros j Hj. destruct (decide (j < length f)%nat) as [Hlt|Hge].
    + rewrite lookup_factor_round by exact Hlt.
      destruct (decide (j < i)%nat); [lia|].
      apply list_lookup_lookup_total_lt, Hlt.
    + rewrite !lookup_ge_None_2
        by (rewrite ?length_factor_round; lia).
      reflexivity.
Qed.

(** The rounds [s, s+1, ..., s+m-1] of the outer loop. *)
Lemma factor_rounds_from (m s : nat) (f : list Z) :
  Forall is_byte f -> (s + m <= S (length f))%nat ->
  for_each (seqZ (Z.of_nat s) (Z.of_nat m))
    (fun i factors =>
       for_each (range_down (i - 1)) (factor_body i) factors) f =
  Ok (foldl (fun f i => factor_round (root i) i f) f (seq s m)).
Proof.
  revert s f. induction m as [|m IH]; intros s f Hf Hsm; [reflexivity|].
  rewrite seqZ_cons by lia.
  replace (Z.succ (Z.of_nat s)) with (Z.of_nat (S s)) by lia.
  replace (Z.pred (Z.of_nat (S m))) with (Z.of_nat m) by lia.
  cbn [for_each]. rewrite factor_round_loop by (assumption || lia).
  cbn [bind]. rewrite IH.
  - reflexivity.
  - apply factor_round_bytes, Hf.
  - rewrite length_factor_round. lia.
Qed.

(** The general construction is the rounds 0, 1, ..., n folded over the
    zero table. *)
Lemma build_factors_rounds (n : nat) :
  build_factors (Z.of_nat n) =
  Ok (foldl (fun f i => factor_round (root i) i f)
            (replicate n 0) (seq 0 (S n))).
Proof.
  unfold build_factors, bytearray, range.
  rewrite (proj2 (Z.ltb_ge (Z.of_nat n) 0)) by lia. cbn [bind].
  rewrite Nat2Z.id.
  replace (Z.of_nat n + 1) with (Z.of_nat (S n)) by lia.
  apply (factor_rounds_from (S n) 0).
  - apply Forall_replicate. unfold is_byte. lia.
  - rewrite length_replicate. lia.
Qed.

Lemma factor_rounds_shape (l : list nat) (f : list Z) :
  Forall is_byte f ->
  length (foldl (fun f i => factor_round (root i) i f) f l) = length f /\
  Forall is_byte (foldl (fun f i => factor_round (root i) i f) f l).
Proof.
  revert f. induction l as [|i l IH]; intros f Hf; [split; [reflexivity|exact Hf]|].
  simpl. destruct (IH (factor_round (root i) i f)) as [Hlen Hbytes].
  - apply factor_round_bytes, Hf.
  - rewrite length_factor_round in Hlen. split; assumption.
Qed.

(** The table is the same with and without the stored tables. *)
Lemma factor_table_build (n : Z) : factor_table n = build_factors n.
Proof.
  destruct (factor_tables !! n) as [t|] eqn:Hn.
  - rewrite (build_factors_stored n t Hn).
    unfold factor_table, dict_getitem. rewrite Hn. reflexivity.
  - apply factor_table_missing, Hn.
Qed.

(** X10: for every size, stored or not, [factor_table] returns what the
    general construction returns: the stored tables change no result. *)
Theorem factor_table_is_general (ecc_size : Z) :
  factor_table ecc_size = build_factors ecc_size.
Proof. apply factor_table_build. Qed.

Lemma factor_table_returns (ecc_size : Z) :
  0 <= ecc_size ->
  exists t,
    factor_table ecc_size = Ok t /\
    Z.of_nat (length t) = ecc_size /\ Forall is_byte t.
Proof.
  intros Hn. rewrite factor_table_build.
  pose proof (build_factors_rounds (Z.to_nat ecc_size)) as Hb.
  rewrite Z2Nat.id in Hb by exact Hn.
  rewrite Hb. eexists. split; [reflexivity|].
  destruct (factor_rounds_shape (seq 0 (S (Z.to_nat ecc_size)))
              (replicate (Z.to_nat ecc_size) 0)) as [Hlen Hbytes].
  - apply Forall_replicate. unfold is_byte. lia.
  - rewrite Hlen, length_replicate. split; [lia | exact Hbytes].
Qed.

(** X11: for every size that is not negative a table is returned (nothing
    is raised), of exactly that many bytes. *)
Theorem factor_table_shape (ecc_size : Z) :
  0 <= ecc_size ->
  exists t,
    factor_table ecc_size = Ok t /\
    Z.of_nat (length t) = ecc_size /\ Forall is_byte t.
Proof. intros. apply factor_table_returns; assumption. Qed.

Lemma factor_table_shape_witness :
  exists t,
    factor_table 3 = Ok t /\
    Z.of_nat (length t) = 3 /\ Forall is_byte t.
Proof. apply (factor_table_shape 3). lia. Defined.

End Construction.

(** ** Two coefficients of the generator polynomial *)

Section Coefficients.

Local Abbreviation root i := (antilog_of (Z.of_nat i mod 255)).
Local Abbreviation rounds l f :=
  (foldl (fun f i => factor_round (root i) i f) f l).

Lemma lookup_total_factor_round g i f (j : nat) :
  (j < length f)%nat ->
  factor_round g i f !!! j =
  if decide (j < i)%nat then
    if decide (0 < j)%nat
    then Z.lxor (product (f !!! j) g) (f !!! (j - 1)%nat)
    else product (f !!! j) g
  else f !!! j.
Proof.
  intros Hj. apply list_lookup_total_correct.
  apply lookup_factor_round, Hj.
Qed.

Lemma length_rounds (l : list nat) (f : list Z) :
  length (rounds l f) = length f.
Proof.
  revert f. induction l as [|i l IH]; intros f; [reflexivity|].
  simpl. rewrite IH. apply length_factor_round.
Qed.

Lemma rounds_snoc (l : list nat) (i : nat) (f : list Z) :
  rounds (l ++ [i]) f = factor_round (root i) i (rounds l f).
Proof. rewrite foldl_app. reflexivity. Qed.

Lemma log_product (a b : Z) :
  log_of (product a b) mod 255 = (log_of a + log_of b) mod 255.
Proof.
  unfold product. apply log_antilog.
  pose proof (Z.mod_pos_bound (log_of a + log_of b) 255). lia.
Qed.

Lemma log_root (i : nat) : log_of (root i) mod 255 = Z.of_nat i mod 255.
Proof.
  apply log_antilog. pose proof (Z.mod_pos_bound (Z.of_nat i) 255). lia.
Qed.

(** The logarithm of slot 0 grows by [i] in round [i]. *)
Lemma rounds_constant_log (m s : nat) (f : list Z) (e e' : Z) :
  (0 < length f)%nat ->
  log_of (f !!! 0%nat) mod 255 = e mod 255 ->
  2 * e' = 2 * e + 2 * Z.of_nat m * Z.of_nat s
           + Z.of_nat m * (Z.of_nat m - 1) ->
  log_of (rounds (seq s m) f !!! 0%nat) mod 255 = e' mod 255.
Proof.
  revert s f e. induction m as [|m IH]; intros s f e Hlen He He'.
  - simpl. rewrite He. f_equal. lia.
  - simpl. apply (IH (S s) _ (e + Z.of_nat s)).
    + rewrite length_factor_round. exact Hlen.
    + rewrite lookup_total_factor_round by exact Hlen.
      destruct (decide (0 < s)%nat) as [Hs|Hs].
      * destruct (decide (0 < 0)%nat); [lia|].
        rewrite log_product.
        rewrite <- Z.add_mod_idemp_l, <- Z.add_mod_idemp_r by lia.
        rewrite He, log_root.
        rewrite Z.add_mod_idemp_l, Z.add_mod_idemp_r by lia. reflexivity.
      * rewrite He. f_equal. lia.
    + lia.
Qed.

Lemma triangle_double (n : Z) : 0 <= n -> 2 * (n * (n + 1) / 2) = n * (n + 1).
Proof.
  intros Hn. destruct (Z.Even_or_Odd n) as [[k ->]|[k ->]].
  - replace (2 * k * (2 * k + 1)) with (k * (2 * k + 1) * 2) by lia.
    rewrite Z.div_mul by lia. lia.
  - replace ((2 * k + 1) * (2 * k + 1 + 1))
      with ((2 * k + 1) * (k + 1) * 2) by lia.
    rewrite Z.div_mul by lia. lia.
Qed.

(** X12: the constant coefficient of the table for [ecc_size >= 1] bytes is
    the product of the roots [2^1, ..., 2^ecc_size]: the power of 2 with
    exponent [ecc_size (ecc_size + 1) / 2]. *)
Theorem factor_table_constant_term (ecc_size : Z) :
  1 <= ecc_size ->
  exists t c,
    factor_table ecc_size = Ok t /\ getitem t 0 = Ok c /\
    galois_pow 2 (ecc_size * (ecc_size + 1) / 2) = Ok c.
Proof.
  intros Hn. rewrite factor_table_build.
  pose proof (build_factors_rounds (Z.to_nat ecc_size)) as Hb.
  rewrite Z2Nat.id in Hb by lia. rewrite Hb. clear Hb.
  set (n := Z.to_nat ecc_size).
  set (t := foldl _ (replicate n 0) (seq 0 (S n))).
  assert (length t = n) as Hlen
    by (unfold t; rewrite length_rounds; apply length_replicate).
  assert (0 < n)%nat as Hpos by lia.
  exists t, (t !!! 0%nat).
  split; [reflexivity|].
  split; [apply (getitem_total t 0); lia|].
  rewrite galois_pow_closed
    by (try lia; apply Z.div_pos; nia).
  change (log_of 2) with 1. rewrite Z.mul_1_r. f_equal.
  assert (1 <= t !!! 0%nat <= 255) as Hnz.
  { unfold t. rewrite seq_S, rounds_snoc. simpl.
    rewrite lookup_total_factor_round
      by (rewrite length_rounds, length_replicate; lia).
    destruct (decide (0 < n)%nat); [|lia].
    destruct (decide (0 < 0)%nat); [lia|]. apply product_nonzero. }
  rewrite <- (antilog_log (t !!! 0%nat) Hnz). f_equal. symmetry.
  apply (rounds_constant_log (S n) 0 (replicate n 0) 0).
  - rewrite length_replicate. exact Hpos.
  - rewrite lookup_total_replicate_2 by exact Hpos. reflexivity.
  - rewrite triangle_double by lia. lia.
Qed.

Lemma factor_table_constant_term_witness :
  exists t c,
    factor_table 9 = Ok t /\ getitem t 0 = Ok c /\
    galois_pow 2 (9 * (9 + 1) / 2) = Ok c.
Proof. apply (factor_table_constant_term 9). lia. Defined.

Lemma xor_all_snoc (l : list Z) (x : Z) :
  xor_all (l ++ [x]) = Z.lxor x (xor_all l).
Proof.
  unfold xor_all. induction l as [|y l IH]; simpl.
  - reflexivity.
  - rewrite IH, <- !Z.lxor_assoc, (Z.lxor_comm y x). reflexivity.
Qed.

Lemma product_zero_l (g : Z) : 1 <= g <= 255 -> product 0 g = g.
Proof.
  intros Hg. unfold product. rewrite log_zero.
  replace (-255 + log_of g) with (log_of g + (-1) * 255) by lia.
  rewrite Z.mod_add by lia. apply antilog_log, Hg.
Qed.

(** After the rounds [0, ..., i] the slots from [i] on are still zero and
    slot [i - 1] holds the XOR of the roots of the rounds so far. *)
Lemma rounds_top (n i : nat) :
  (i <= n)%nat ->
  (forall j, (i <= j < n)%nat ->
     foldl (fun f i => factor_round (root i) i f)
           (replicate n 0) (seq 0 (S i)) !!! j = 0) /\
  ((1 <= i)%nat ->
     foldl (fun f i => factor_round (root i) i f)
           (replicate n 0) (seq 0 (S i)) !!! (i - 1)%nat =
     xor_all ((fun k => root k) <$> seq 1 i)).
Proof.
  induction i as [|i IH]; intros Hi.
  - split; [|lia]. intros j Hj. simpl.
    rewrite lookup_total_factor_round by (rewrite length_replicate; lia).
    destruct (decide (j < 0)%nat); [lia|].
    apply lookup_total_replicate_2. lia.
  - destruct (IH ltac:(lia)) as [Hzero Htop].
    rewrite seq_S, rounds_snoc. simpl plus.
    set (f := foldl _ (replicate n 0) (seq 0 (S i))) in *.
    assert (length f = n) as Hlen
      by (unfold f; rewrite length_rounds; apply length_replicate).
    split.
    + intros j Hj. rewrite lookup_total_factor_round by lia.
      destruct (decide (j < S i)%nat); [lia|]. apply Hzero. lia.
    + intros _. replace (S i - 1)%nat with i by lia.
      rewrite lookup_total_factor_round by lia.
      destruct (decide (i < S i)%nat); [|lia].
      rewrite (Hzero i) by lia.
      rewrite product_zero_l by apply antilog_nonzero, mod255_index.
      rewrite seq_S, fmap_app. simpl (_ <$> [_]). rewrite xor_all_snoc.
      destruct (decide (0 < i)%nat) as [Hpos|Hz].
      * rewrite Htop by lia. reflexivity.
      * replace i with 0%nat by lia. simpl. rewrite Z.lxor_0_r. reflexivity.
Qed.

(** X13: the last entry of the table for [ecc_size >= 1] bytes, the
    coefficient next to the leading one, is the XOR (the field's sum) of
    the roots [2^1, ..., 2^ecc_size]. *)
Theorem factor_table_top_term (ecc_size : Z) :
  1 <= ecc_size ->
  exists t,
    factor_table ecc_size = Ok t /\
    getitem t (ecc_size - 1) =
    Ok (xor_all ((fun k => antilog_of (k mod 255)) <$> seqZ 1 ecc_size)) /\
    Forall (fun k => galois_pow 2 k = Ok (antilog_of (k mod 255)))
           (seqZ 1 ecc_size).
Proof.
  intros Hn. rewrite factor_table_build.
  pose proof (build_factors_rounds (Z.to_nat ecc_size)) as Hb.
  rewrite Z2Nat.id in Hb by lia. rewrite Hb. clear Hb.
  set (n := Z.to_nat ecc_size).
  set (t := foldl _ (replicate n 0) (seq 0 (S n))).
  assert (length t = n) as Hlen
    by (unfold t; rewrite length_rounds; apply length_replicate).
  exists t. split; [reflexivity|]. split.
  - rewrite (getitem_total t) by lia. f_equal.
    replace (Z.to_nat (ecc_size - 1)) with (n - 1)%nat by lia.
    destruct (rounds_top n n ltac:(lia)) as [_ Htop].
    unfold t. rewrite Htop by lia. f_equal.
    unfold seqZ. replace (Z.to_nat ecc_size) with n by reflexivity.
    rewrite <- (fmap_add_seq 1 0), <- !list_fmap_compose.
    apply list_fmap_ext. intros k x Hx. simpl. do 2 f_equal. lia.
  - apply Forall_seqZ. intros k Hk.
    rewrite galois_pow_closed by lia.
    change (log_of 2) with 1. rewrite Z.mul_1_r. reflexivity.
Qed.

Lemma factor_table_top_term_witness :
  exists t,
    factor_table 9 = Ok t /\
    getitem t (9 - 1) =
    Ok (xor_all ((fun k => antilog_of (k mod 255)) <$> seqZ 1 9)) /\
    Forall (fun k => galois_pow 2 k = Ok (antilog_of (k mod 255)))
           (seqZ 1 9).
Proof. apply (factor_table_top_term 9). lia. Defined.

End Coefficients.

(** ** The padding loop on every input *)

Section PaddingTotal.

Lemma pad_formula_range (i : Z) : 1 <= pad_formula i <= 254.
Proof.
  unfold pad_formula.
  pose proof (Z.mod_pos_bound ((149 * (i + 1)) mod 253 + 130) 254) as Hp.
  destruct (Z.eqb_spec (((149 * (i + 1)) mod 253 + 130) mod 254) 0); lia.
Qed.

Lemma pad_always (data : list Z) (target : Z) :
  exists padded,
    pad data target = Ok padded /\
    Z.of_nat (length padded) = Z.max (Z.of_nat (length data)) target /\
    take (length data) padded = data /\
    Forall (fun x => 1 <= x <= 254) (drop (length data) padded).
Proof.
  exists (data ++
            ((fun i => if i =? Z.of_nat (length data) then 129
                       else pad_formula i)
             <$> seqZ (Z.of_nat (length data))
                      (target - Z.of_nat (length data)))).
  split; [exact (pad_unfold data target)|].
  split; [|split].
  - rewrite length_app, length_fmap, length_seqZ. lia.
  - apply take_app_length.
  - rewrite drop_app_length. apply Forall_fmap, Forall_forall.
    intros i _. simpl. destruct (i =? Z.of_nat (length data)); [lia|].
    apply pad_formula_range.
Qed.

(** X14: the padding never raises; it returns the data followed by as many
    pad bytes as are missing up to the target (none when the data is long
    enough), and no pad byte is 0 or 255. *)
Theorem pad_total (data : list Z) (target : Z) :
  exists padded,
    pad data target = Ok padded /\
    Z.of_nat (length padded) = Z.max (Z.of_nat (length data)) target /\
    take (length data) padded = data /\
    Forall (fun x => 1 <= x <= 254) (drop (length data) padded).
Proof. intros. apply pad_always; assumption. Qed.

Lemma pad_noop (data : list Z) (target : Z) :
  target <= Z.of_nat (length data) -> pad data target = Ok data.
Proof.
  intros Hle. rewrite pad_unfold, seqZ_nil by lia.
  simpl. rewrite app_nil_r. reflexivity.
Qed.

Lemma pad_again (data padded : list Z) (target : Z) :
  pad data target = Ok padded ->
  pad padded target = Ok padded /\
  (Forall is_byte data -> Forall is_byte padded).
Proof.
  intros Hpad. rewrite pad_unfold in Hpad. injection Hpad as <-.
  split.
  - apply pad_noop.
    rewrite length_app, length_fmap, length_seqZ. lia.
  - intros Hdata. apply Forall_app. split; [exact Hdata|].
    apply Forall_fmap, Forall_forall. intros i _. simpl.
    destruct (i =? Z.of_nat (length data)); [unfold is_byte; lia|].
    apply pad_formula_is_byte.
Qed.

(** X15: padding a second time to the same target changes nothing, and
    padded bytes are bytes. *)
Theorem pad_idempotent (data padded : list Z) (target : Z) :
  pad data target = Ok padded ->
  pad padded target = Ok padded /\
  (Forall is_byte data -> Forall is_byte padded).
Proof. intros. apply pad_again; assumption. Qed.

Lemma pad_idempotent_witness :
  pad [142; 164; 186; 129; 115] 5 = Ok [142; 164; 186; 129; 115] /\
  (Forall is_byte [142; 164; 186] ->
   Forall is_byte [142; 164; 186; 129; 115]).
Proof. apply (pad_idempotent [142; 164; 186] _ 5). reflexivity. Defined.

End PaddingTotal.

(** ** The ecc loop: shape, zero codewords, edges *)

Section EncoderShape.

Lemma seqZ_to_nat (m n : Z) : seqZ m n = seqZ m (Z.of_nat (Z.to_nat n)).
Proof. unfold seqZ. rewrite Nat2Z.id. reflexivity. Qed.

(** The ecc loop is the fold of the sweeps, for any count of bytes that the
    data has. *)
Lemma calc_ecc_rs_encode (data : list Z) (data_size ecc_size : Z)
    (f : list Z) :
  Forall is_byte data -> Forall is_byte f ->
  data_size <= Z.of_nat (length data) ->
  0 < ecc_size -> Z.of_nat (length f) = ecc_size ->
  calc_ecc data data_size ecc_size f =
  Ok (rs_encode (take (Z.to_nat data_size) data) f).
Proof.
  intros Hdata Hf Hsize Hpos Hlen. subst ecc_size.
  unfold calc_ecc, bytearray, ecc_loop, rs_encode, range.
  rewrite (proj2 (Z.ltb_ge (Z.of_nat (length f)) 0)) by lia. cbn [bind].
  rewrite Nat2Z.id, (seqZ_to_nat 0 data_size).
  rewrite (ecc_loop_from f Hf data (Z.to_nat data_size) 0).
  - reflexivity.
  - exact Hdata.
  - lia.
  - lia.
  - apply Forall_replicate. unfold is_byte. lia.
  - apply length_replicate.
Qed.

Lemma rs_encode_shape (codeword f : list Z) :
  length (rs_encode codeword f) = length f /\
  Forall is_byte (rs_encode codeword f).
Proof.
  unfold rs_encode.
  assert (forall acc, Forall is_byte acc ->
            length (foldl (sweep f) acc codeword) = length acc /\
            Forall is_byte (foldl (sweep f) acc codeword)) as Hfold.
  { induction codeword as [|d c IH]; intros acc Hacc; [split; [reflexivity|assumption]|].
    simpl. destruct (IH (sweep f acc d)) as [Hl Hb].
    - apply sweep_bytes, Hacc.
    - rewrite length_sweep in Hl. split; assumption. }
  destruct (Hfold (replicate (length f) 0)) as [Hl Hb].
  - apply Forall_replicate. unfold is_byte. lia.
  - rewrite length_replicate in Hl. split; assumption.
Qed.

Lemma calc_ecc_returns (data : list Z) (data_size ecc_size : Z)
    (f : list Z) :
  Forall is_byte data -> Forall is_byte f ->
  data_size <= Z.of_nat (length data) ->
  0 < ecc_size -> Z.of_nat (length f) = ecc_size ->
  exists ecc,
    calc_ecc data data_size ecc_size f = Ok ecc /\
    Z.of_nat (length ecc) = ecc_size /\ Forall is_byte ecc.
Proof.
  intros Hdata Hf Hsize Hpos Hlen.
  rewrite calc_ecc_rs_encode by assumption.
  eexists. split; [reflexivity|].
  destruct (rs_encode_shape (take (Z.to_nat data_size) data) f) as [Hl Hb].
  rewrite Hl. split; assumption.
Qed.

(** X16: on a codeword of bytes and as many factors as ecc bytes (at least
    one) the ecc loop raises nothing and returns exactly [ecc_size] bytes. *)
Theorem calc_ecc_shape (data : list Z) (data_size ecc_size : Z)
    (f : list Z) :
  Forall is_byte data -> Forall is_byte f ->
  data_size <= Z.of_nat (length data) ->
  0 < ecc_size -> Z.of_nat (length f) = ecc_size ->
  exists ecc,
    calc_ecc data data_size ecc_size f = Ok ecc /\
    Z.of_nat (length ecc) = ecc_size /\ Forall is_byte ecc.
Proof. intros. apply calc_ecc_returns; assumption. Qed.

Lemma calc_ecc_shape_witness :
  exists ecc,
    calc_ecc [142; 164; 186] 3 5 [228; 48; 15; 111; 62] = Ok ecc /\
    Z.of_nat (length ecc) = 5 /\ Forall is_byte ecc.
Proof.
  apply (calc_ecc_shape [142; 164; 186] 3 5 [228; 48; 15; 111; 62]).
  - repeat constructor; unfold is_byte; lia.
  - repeat constructor; unfold is_byte; lia.
  - simpl. lia.
  - lia.
  - reflexivity.
Defined.

Lemma sweep_zero (f : list Z) (n : nat) :
  sweep f (replicate n 0) 0 = replicate n 0.
Proof.
  apply list_eq. intros j.
  destruct (decide (j < n)%nat) as [Hj|Hj].
  - rewrite lookup_sweep by (rewrite length_replicate; exact Hj).
    rewrite length_replicate, lookup_replicate_2 by exact Hj.
    rewrite lookup_total_replicate_2 by lia.
    unfold multiply. simpl.
    destruct (decide (S j < n)%nat); [|reflexivity].
    rewrite lookup_total_replicate_2 by assumption. reflexivity.
  - rewrite !lookup_ge_None_2
      by (rewrite ?length_sweep, length_replicate; lia).
    reflexivity.
Qed.

Lemma rs_encode_leading_zeros (k : nat) (codeword f : list Z) :
  rs_encode (replicate k 0 ++ codeword) f = rs_encode codeword f.
Proof.
  unfold rs_encode. rewrite foldl_app. f_equal.
  induction k as [|k IH]; [reflexivity|].
  simpl. rewrite sweep_zero. exact IH.
Qed.

(** X17: zero bytes at the head of the codeword leave the accumulator at
    zero: the ecc bytes are those of the rest of the codeword, and an
    all-zero codeword has all-zero ecc bytes. *)
Theorem calc_ecc_leading_zeros (k : nat) (data : list Z) (ecc_size : Z)
    (f : list Z) :
  Forall is_byte data -> Forall is_byte f ->
  0 < ecc_size -> Z.of_nat (length f) = ecc_size ->
  calc_ecc (replicate k 0 ++ data) (Z.of_nat (k + length data)) ecc_size f =
  calc_ecc data (Z.of_nat (length data)) ecc_size f /\
  calc_ecc (replicate k 0) (Z.of_nat k) ecc_size f =
  Ok (replicate (Z.to_nat ecc_size) 0).
Proof.
  intros Hdata Hf Hpos Hlen.
  assert (Forall is_byte (replicate k 0)) as Hzeros
    by (apply Forall_replicate; unfold is_byte; lia).
  assert (Forall is_byte (replicate k 0 ++ data)) as Hall
    by (apply Forall_app; split; assumption).
  assert (Z.of_nat (k + length data)
          <= Z.of_nat (length (replicate k 0 ++ data))) as Hl1
    by (rewrite length_app, length_replicate; lia).
  assert (Z.of_nat k <= Z.of_nat (length (replicate k 0))) as Hl2
    by (rewrite length_replicate; lia).
  rewrite !calc_ecc_rs_encode by first [assumption | lia].
  rewrite !Nat2Z.id.
  rewrite (take_ge (_ ++ _)) by (rewrite length_app, length_replicate; lia).
  rewrite (take_ge data), (take_ge (replicate k 0))
    by (rewrite ?length_replicate; lia).
  rewrite rs_encode_leading_zeros. split; [reflexivity|].
  rewrite <- (app_nil_r (replicate k 0)), rs_encode_leading_zeros.
  unfold rs_encode. simpl. do 2 f_equal. lia.
Qed.

Lemma calc_ecc_leading_zeros_witness :
  calc_ecc (replicate 2 0 ++ [142; 164; 186])
           (Z.of_nat (2 + length [142; 164; 186])) 5 [228; 48; 15; 111; 62] =
  calc_ecc [142; 164; 186] (Z.of_nat (length [142; 164; 186])) 5
           [228; 48; 15; 111; 62] /\
  calc_ecc (replicate 2 0) (Z.of_nat 2) 5 [228; 48; 15; 111; 62] =
  Ok (replicate (Z.to_nat 5) 0).
Proof.
  apply (calc_ecc_leading_zeros 2 [142; 164; 186] 5 [228; 48; 15; 111; 62]).
  - repeat constructor; unfold is_byte; lia.
  - repeat constructor; unfold is_byte; lia.
  - lia.
  - reflexivity.
Defined.

(** X18: the edges of the ecc loop: a negative [ecc_size] is the
    [ValueError] of the allocation; with no ecc bytes and at least one
    byte to read, the first read of [ecc[0]] (or of [data[0]]) is an
    [IndexError]; with nothing to read the zero accumulator is returned. *)
Theorem calc_ecc_edges (data : list Z) (data_size ecc_size : Z)
    (f : list Z) :
  (ecc_size < 0 -> calc_ecc data data_size ecc_size f = Raise ValueError) /\
  (ecc_size = 0 -> 1 <= data_size ->
   calc_ecc data data_size ecc_size f = Raise IndexError) /\
  (0 <= ecc_size -> data_size <= 0 ->
   calc_ecc data data_size ecc_size f = Ok (replicate (Z.to_nat ecc_size) 0)).
Proof.
  unfold calc_ecc, bytearray, ecc_loop, range. split; [|split].
  - intros Hneg. rewrite (proj2 (Z.ltb_lt ecc_size 0)) by lia. reflexivity.
  - intros -> Hsize. cbn [Z.ltb Z.compare bind Z.to_nat replicate].
    rewrite seqZ_cons by lia. cbn [for_each].
    destruct (getitem data 0) as [d|e] eqn:Hd.
    + reflexivity.
    + cbn [bind]. f_equal. unfold getitem in Hd.
      destruct (position (length data) 0); [|congruence].
      destruct (data !! n); congruence.
  - intros Hn Hsize. rewrite (proj2 (Z.ltb_ge ecc_size 0)) by lia.
    cbn [bind]. rewrite seqZ_nil by lia. reflexivity.
Qed.

Lemma calc_ecc_edges_witness :
  (0 < 0 -> calc_ecc [142] 1 0 [] = Raise ValueError) /\
  (0 = 0 -> 1 <= 1 -> calc_ecc [142] 1 0 [] = Raise IndexError) /\
  (0 <= 0 -> 1 <= 0 ->
   calc_ecc [142] 1 0 [] = Ok (replicate (Z.to_nat 0) 0)).
Proof. apply (calc_ecc_edges [142] 1 0 []). Defined.

(** X19: asking for more bytes than the data has is an [IndexError], raised
    once the data is used up. *)
Theorem calc_ecc_short_data (data : list Z) (data_size ecc_size : Z)
    (f : list Z) :
  Forall is_byte data -> Forall is_byte f ->
  Z.of_nat (length data) < data_size ->
  0 < ecc_size -> Z.of_nat (length f) = ecc_size ->
  calc_ecc data data_size ecc_size f = Raise IndexError.
Proof.
  intros Hdata Hf Hsize Hpos Hlen. subst ecc_size.
  unfold calc_ecc, bytearray, ecc_loop, range.
  rewrite (proj2 (Z.ltb_ge (Z.of_nat (length f)) 0)) by lia. cbn [bind].
  rewrite Nat2Z.id.
  replace data_size
    with (Z.of_nat (length data) + (data_size - Z.of_nat (length data)))
    by lia.
  rewrite seqZ_app, for_each_app by lia.
  rewrite (ecc_loop_from f Hf data (length data) 0); try assumption; try lia.
  - cbn [bind]. rewrite seqZ_cons by lia. cbn [for_each].
    rewrite getitem_out_of_range by lia. reflexivity.
  - apply Forall_replicate. unfold is_byte. lia.
  - apply length_replicate.
Qed.

Lemma calc_ecc_short_data_witness :
  calc_ecc [142; 164; 186] 4 5 [228; 48; 15; 111; 62] = Raise IndexError.
Proof.
  apply (calc_ecc_short_data [142; 164; 186] 4 5 [228; 48; 15; 111; 62]).
  - repeat constructor; unfold is_byte; lia.
  - repeat constructor; unfold is_byte; lia.
  - simpl. lia.
  - lia.
  - reflexivity.
Defined.

End EncoderShape.

(** ** The ecc bytes are linear in the codeword *)

Section Linearity.

Lemma lxor_shuffle (a b c d : Z) :
  Z.lxor (Z.lxor a b) (Z.lxor c d) = Z.lxor (Z.lxor a c) (Z.lxor b d).
Proof.
  apply Z.bits_inj'. intros n _. rewrite !Z.lxor_spec.
  destruct (Z.testbit a n), (Z.testbit b n), (Z.testbit c n),
    (Z.testbit d n); reflexivity.
Qed.

Lemma iter_xtime_zero (k : nat) : Nat.iter k xtime 0 = 0.
Proof. induction k as [|k IH]; [reflexivity|]. simpl. rewrite IH. reflexivity. Qed.

(** The encoder's product by a factor is as many doublings of [t] as the
    logarithm of the factor says. *)
Lemma multiply_iter (t fk : Z) :
  is_byte t ->
  multiply t fk = Nat.iter (Z.to_nat (log_of fk mod 255)) xtime t.
Proof.
  intros Ht. unfold multiply.
  destruct (Z.eqb_spec t 0) as [->|Hnz].
  - rewrite iter_xtime_zero. reflexivity.
  - fold (product t fk). rewrite product_comm.
    apply product_iter. unfold is_byte in Ht. lia.
Qed.

Lemma multiply_lxor (t1 t2 fk : Z) :
  is_byte t1 -> is_byte t2 ->
  multiply (Z.lxor t1 t2) fk = Z.lxor (multiply t1 fk) (multiply t2 fk).
Proof.
  intros H1 H2.
  rewrite !multiply_iter by (assumption || apply lxor_is_byte; assumption).
  apply iter_xtime_lxor; assumption.
Qed.

Lemma length_xor_bytes (a b : list Z) :
  length a = length b -> length (xor_bytes a b) = length a.
Proof. intros Hab. unfold xor_bytes. rewrite length_zip_with. lia. Qed.

Lemma lookup_total_xor_bytes (a b : list Z) (i : nat) :
  (i < length a)%nat -> length a = length b ->
  xor_bytes a b !!! i = Z.lxor (a !!! i) (b !!! i).
Proof.
  intros Hi Hab. unfold xor_bytes. apply lookup_total_zip_with; lia.
Qed.

Lemma lookup_xor_bytes (a b : list Z) (i : nat) (x y : Z) :
  a !! i = Some x -> b !! i = Some y ->
  xor_bytes a b !! i = Some (Z.lxor x y).
Proof.
  intros Ha Hb. unfold xor_bytes. rewrite lookup_zip_with, Ha, Hb.
  reflexivity.
Qed.

Lemma xor_bytes_is_bytes (a b : list Z) :
  Forall is_byte a -> Forall is_byte b -> Forall is_byte (xor_bytes a b).
Proof.
  intros Ha Hb. unfold xor_bytes. apply Forall_lookup_2. intros i x Hx.
  rewrite lookup_zip_with in Hx.
  destruct (a !! i) as [u|] eqn:Hu; [|discriminate].
  destruct (b !! i) as [v|] eqn:Hv; [|discriminate].
  simpl in Hx. injection Hx as <-.
  apply lxor_is_byte;
    [apply (Forall_lookup_1 _ _ _ _ Ha Hu) | apply (Forall_lookup_1 _ _ _ _ Hb Hv)].
Qed.

Lemma sweep_xor (f p1 p2 : list Z) (d1 d2 : Z) :
  Forall is_byte p1 -> Forall is_byte p2 -> length p1 = length p2 ->
  is_byte d1 -> is_byte d2 ->
  sweep f (xor_bytes p1 p2) (Z.lxor d1 d2) =
  xor_bytes (sweep f p1 d1) (sweep f p2 d2).
Proof.
  intros Hp1 Hp2 Hlen Hd1 Hd2. apply list_eq. intros j.
  destruct (decide (j < length p1)%nat) as [Hj|Hj].
  - rewrite lookup_sweep by (rewrite length_xor_bytes; assumption).
    rewrite (lookup_xor_bytes _ _ j _ _
               (lookup_sweep f p1 d1 j Hj)
               (lookup_sweep f p2 d2 j ltac:(lia))).
    f_equal. cbv zeta.
    rewrite length_xor_bytes by exact Hlen. rewrite <- Hlen.
    rewrite lookup_total_xor_bytes by (lia || assumption).
    rewrite (lxor_shuffle d1 d2).
    rewrite multiply_lxor
      by (apply lxor_is_byte; [assumption|];
          apply Forall_lookup_total_1; [assumption | lia]).
    destruct (decide (S j < length p1)%nat) as [HS|HS]; [|reflexivity].
    rewrite lookup_total_xor_bytes by (lia || assumption).
    rewrite lxor_shuffle. reflexivity.
  - rewrite !lookup_ge_None_2; [reflexivity | |].
    + rewrite length_xor_bytes; rewrite !length_sweep; lia.
    + rewrite length_sweep, length_xor_bytes; lia.
Qed.

Lemma foldl_sweep_xor (f c1 c2 a1 a2 : list Z) :
  Forall is_byte c1 -> Forall is_byte c2 -> length c1 = length c2 ->
  Forall is_byte a1 -> Forall is_byte a2 -> length a1 = length a2 ->
  foldl (sweep f) (xor_bytes a1 a2) (xor_bytes c1 c2) =
  xor_bytes (foldl (sweep f) a1 c1) (foldl (sweep f) a2 c2).
Proof.
  revert c2 a1 a2.
  induction c1 as [|d1 c1 IH]; intros [|d2 c2] a1 a2 Hc1 Hc2 Hlc Ha1 Ha2 Hla;
    try discriminate; [reflexivity|].
  apply Forall_cons in Hc1 as [Hd1 Hc1]. apply Forall_cons in Hc2 as [Hd2 Hc2].
  simpl. rewrite <- IH.
  - rewrite sweep_xor by assumption. reflexivity.
  - exact Hc1.
  - exact Hc2.
  - simpl in Hlc. lia.
  - apply sweep_bytes; assumption.
  - apply sweep_bytes; assumption.
  - rewrite !length_sweep. exact Hla.
Qed.

Lemma rs_encode_xor (f c1 c2 : list Z) :
  Forall is_byte f ->
  Forall is_byte c1 -> Forall is_byte c2 -> length c1 = length c2 ->
  rs_encode (xor_bytes c1 c2) f =
  xor_bytes (rs_encode c1 f) (rs_encode c2 f).
Proof.
  intros Hf Hc1 Hc2 Hlen. unfold rs_encode.
  assert (Forall is_byte (replicate (length f) 0)) as Hz
    by (apply Forall_replicate; unfold is_byte; lia).
  rewrite <- foldl_sweep_xor by (assumption || reflexivity).
  f_equal. unfold xor_bytes. rewrite zip_with_replicate. reflexivity.
Qed.

(** X20: the ecc bytes of the XOR of two codewords of the same length are
    the XOR of their ecc bytes, for any table of byte factors. *)
Theorem calc_ecc_linear (data1 data2 : list Z) (ecc_size : Z) (f : list Z) :
  Forall is_byte data1 -> Forall is_byte data2 ->
  length data1 = length data2 ->
  Forall is_byte f -> 0 < ecc_size -> Z.of_nat (length f) = ecc_size ->
  exists ecc1 ecc2,
    calc_ecc data1 (Z.of_nat (length data1)) ecc_size f = Ok ecc1 /\
    calc_ecc data2 (Z.of_nat (length data2)) ecc_size f = Ok ecc2 /\
    calc_ecc (xor_bytes data1 data2) (Z.of_nat (length data1)) ecc_size f =
    Ok (xor_bytes ecc1 ecc2).
Proof.
  intros H1 H2 Hlen Hf Hpos Hn.
  assert (Forall is_byte (xor_bytes data1 data2)) as H12
    by (apply xor_bytes_is_bytes; assumption).
  assert (Z.of_nat (length data1)
          <= Z.of_nat (length (xor_bytes data1 data2))) as Hl12
    by (rewrite length_xor_bytes by exact Hlen; lia).
  exists (rs_encode data1 f), (rs_encode data2 f).
  rewrite !calc_ecc_rs_encode by first [assumption | lia].
  rewrite !Nat2Z.id.
  rewrite (take_ge data1), (take_ge data2) by lia.
  rewrite (take_ge (xor_bytes _ _))
    by (rewrite length_xor_bytes by exact Hlen; lia).
  split; [reflexivity|]. split; [reflexivity|].
  rewrite rs_encode_xor by assumption. reflexivity.
Qed.

Lemma calc_ecc_linear_witness :
  exists ecc1 ecc2,
    calc_ecc [142; 164; 186] (Z.of_nat (length [142; 164; 186])) 5
             [228; 48; 15; 111; 62] = Ok ecc1 /\
    calc_ecc [66; 129; 70] (Z.of_nat (length [66; 129; 70])) 5
             [228; 48; 15; 111; 62] = Ok ecc2 /\
    calc_ecc (xor_bytes [142; 164; 186] [66; 129; 70])
             (Z.of_nat (length [142; 164; 186])) 5
             [228; 48; 15; 111; 62] = Ok (xor_bytes ecc1 ecc2).
Proof.
  apply (calc_ecc_linear [142; 164; 186] [66; 129; 70] 5
           [228; 48; 15; 111; 62]).
  - repeat constructor; unfold is_byte; lia.
  - repeat constructor; unfold is_byte; lia.
  - reflexivity.
  - repeat constructor; unfold is_byte; lia.
  - lia.
  - reflexivity.
Defined.

End Linearity.

(** ** The script as a whole *)

Section Script.

Lemma rs_test_calc_ecc (data : list Z) (data_size ecc_size : Z) :
  0 <= ecc_size ->
  rs_test data data_size ecc_size =
  (let! padded := pad data data_size in
   let! f := factor_table ecc_size in
   calc_ecc padded data_size ecc_size f).
Proof.
  intros Hn. unfold rs_test, calc_ecc, bytearray.
  rewrite (proj2 (Z.ltb_ge ecc_size 0)) by lia. reflexivity.
Qed.

(** X21: for data of bytes and at least one ecc byte the script raises
    nothing, whatever the data size asked for: the data is padded, the
    table fetched or built, and the result is the [ecc_size] ecc bytes of
    the first [data_size] bytes of the padded data under that table. *)
Theorem rs_test_total (data : list Z) (data_size ecc_size : Z) :
  Forall is_byte data -> 1 <= ecc_size ->
  exists padded table ecc,
    pad data data_size = Ok padded /\
    factor_table ecc_size = Ok table /\
    rs_test data data_size ecc_size = Ok ecc /\
    calc_ecc padded data_size ecc_size table = Ok ecc /\
    Z.of_nat (length ecc) = ecc_size /\ Forall is_byte ecc.
Proof.
  intros Hdata Hn.
  destruct (pad_always data data_size) as (padded & Hpad & Hlen & _ & _).
  destruct (pad_again data padded data_size Hpad) as [_ Hbytes].
  destruct (factor_table_returns ecc_size ltac:(lia)) as (table & Htab & Hlt & Hbt).
  destruct (calc_ecc_returns padded data_size ecc_size table)
    as (ecc & Hecc & Hle & Hbe); try assumption; try lia.
  { apply Hbytes, Hdata. }
  exists padded, table, ecc.
  rewrite rs_test_calc_ecc, Hpad, Htab by lia. cbn [bind].
  repeat split; assumption.
Qed.

Lemma rs_test_total_witness :
  exists padded table ecc,
    pad [66] 3 = Ok padded /\
    factor_table 5 = Ok table /\
    rs_test [66] 3 5 = Ok ecc /\
    calc_ecc padded 3 5 table = Ok ecc /\
    Z.of_nat (length ecc) = 5 /\ Forall is_byte ecc.
Proof.
  apply (rs_test_total [66] 3 5); [|lia].
  repeat constructor; unfold is_byte; lia.
Defined.

End Script.

(** ** More on the BCH remainder *)

Section RemainderMore.

Local Abbreviation bch_body p :=
  (fun i v =>
     let! q := lshift p i in
     let test := Z.lxor v q in
     if test <? v then Ok test else Ok v).

(** The value one iteration leaves. *)
Local Abbreviation reduce q v :=
  (if Z.lxor v q <? v then Z.lxor v q else v%Z).

Lemma bch_body_reduce (p : Z) (i : nat) (v : Z) :
  bch_body p (Z.of_nat i) v = Ok (reduce (Z.shiftl p (Z.of_nat i)) v).
Proof.
  cbv beta. unfold lshift.
  rewrite (proj2 (Z.ltb_ge (Z.of_nat i) 0)) by lia. cbn [bind].
  destruct (Z.lxor v (Z.shiftl p (Z.of_nat i)) <? v); reflexivity.
Qed.

Lemma bch_loop_total (p : Z) (n : nat) (v : Z) :
  exists r,
    for_each (reverse (seqZ 0 (Z.of_nat n))) (bch_body p) v = Ok r.
Proof.
  revert v. induction n as [|n IH]; intros v; [exists v; reflexivity|].
  rewrite seqZ_S, reverse_snoc, Z.add_0_l. cbn [for_each].
  rewrite bch_body_reduce. cbn [bind]. apply IH.
Qed.

Lemma range_down_nat (vw : Z) :
  range_down (vw - 1) = reverse (seqZ 0 (Z.of_nat (Z.to_nat vw))).
Proof.
  unfold range_down. replace (vw - 1 + 1) with vw by lia.
  rewrite <- seqZ_to_nat. reflexivity.
Qed.

(** X22: [calc_bch] raises exactly when [pw <= 0] (the [ValueError] of the
    negative shift); otherwise it returns, whatever the four arguments. *)
Theorem calc_bch_raises_iff (v vw p pw : Z) :
  (pw <= 0 -> calc_bch v vw p pw = Raise ValueError) /\
  (1 <= pw -> exists r, calc_bch v vw p pw = Ok r).
Proof.
  split; intros Hpw; unfold calc_bch, lshift at 1.
  - rewrite (proj2 (Z.ltb_lt (pw - 1) 0)) by lia. reflexivity.
  - rewrite (proj2 (Z.ltb_ge (pw - 1) 0)) by lia. cbn [bind].
    rewrite range_down_nat. apply bch_loop_total.
Qed.

Lemma calc_bch_raises_iff_witness :
  (0 <= 0 -> calc_bch 9 5 1335 0 = Raise ValueError) /\
  (1 <= 0 -> exists r, calc_bch 9 5 1335 0 = Ok r).
Proof. apply (calc_bch_raises_iff 9 5 1335 0). Defined.

Lemma bch_loop_zero (p : Z) (n : nat) :
  0 <= p ->
  for_each (reverse (seqZ 0 (Z.of_nat n))) (bch_body p) 0 = Ok 0.
Proof.
  intros Hp. induction n as [|n IH]; [reflexivity|].
  rewrite seqZ_S, reverse_snoc, Z.add_0_l. cbn [for_each].
  rewrite bch_body_reduce. cbn [bind].
  rewrite Z.lxor_0_l.
  rewrite (proj2 (Z.ltb_ge (Z.shiftl p (Z.of_nat n)) 0))
    by (apply Z.shiftl_nonneg; exact Hp).
  exact IH.
Qed.

(** X23: the remainder of zero is zero for every polynomial that is not
    negative, and with no bits to divide ([vw <= 0]) the shifted value is
    returned as it is. *)
Theorem calc_bch_zero (v vw p pw : Z) :
  1 <= pw ->
  (0 <= p -> calc_bch 0 vw p pw = Ok 0) /\
  (vw <= 0 -> calc_bch v vw p pw = Ok (Z.shiftl v (pw - 1))).
Proof.
  intros Hpw. split.
  - intros Hp. unfold calc_bch, lshift at 1.
    rewrite (proj2 (Z.ltb_ge (pw - 1) 0)) by lia. cbn [bind].
    rewrite Z.shiftl_0_l, range_down_nat.
    apply bch_loop_zero, Hp.
  - intros Hvw. unfold calc_bch, lshift at 1.
    rewrite (proj2 (Z.ltb_ge (pw - 1) 0)) by lia. cbn [bind].
    unfold range_down. rewrite seqZ_nil by lia. reflexivity.
Qed.

Lemma calc_bch_zero_witness :
  (0 <= 1335 -> calc_bch 0 5 1335 11 = Ok 0) /\
  (5 <= 0 -> calc_bch 9 5 1335 11 = Ok (Z.shiftl 9 (11 - 1))).
Proof. apply (calc_bch_zero 9 5 1335 11). lia. Defined.

Lemma lxor_cancel_r (v q : Z) : Z.lxor (Z.lxor v q) q = v.
Proof. rewrite Z.lxor_assoc, Z.lxor_nilpotent, Z.lxor_0_r. reflexivity. Qed.

(** What the sweep takes away is an XOR of shifted copies of [p]. *)
Lemma bch_loop_multiple (p : Z) (n : nat) (v r : Z) :
  for_each (reverse (seqZ 0 (Z.of_nat n))) (bch_body p) v = Ok r ->
  exists shifts,
    sublist shifts (reverse (seqZ 0 (Z.of_nat n))) /\
    v = Z.lxor (xor_shifts p shifts) r.
Proof.
  revert v. induction n as [|n IH]; intros v.
  - simpl. intros [= <-]. exists []. split; [constructor|]. reflexivity.
  - rewrite seqZ_S, reverse_snoc, Z.add_0_l. cbn [for_each].
    rewrite bch_body_reduce. cbn [bind]. intros Hloop.
    destruct (IH _ Hloop) as (shifts & Hsub & Heq).
    destruct (Z.lxor v (Z.shiftl p (Z.of_nat n)) <? v).
    + exists (Z.of_nat n :: shifts). split; [apply sublist_skip, Hsub|].
      simpl. rewrite Z.lxor_assoc, <- Heq, Z.lxor_comm.
      symmetry. apply lxor_cancel_r.
    + exists shifts. split; [apply sublist_cons, Hsub | exact Heq].
Qed.

(** X24: the result is the remainder of [v << (pw - 1)] by [p] over GF(2):
    it is below [2^(pw-1)] and differs from the shifted value by the XOR of
    copies of [p] shifted by some of [vw - 1, ..., 0]. *)
Theorem calc_bch_remainder (v vw p pw : Z) :
  0 <= v < 2 ^ vw -> 2 ^ (pw - 1) <= p < 2 ^ pw -> 1 <= pw ->
  exists r shifts,
    calc_bch v vw p pw = Ok r /\ 0 <= r < 2 ^ (pw - 1) /\
    sublist shifts (range_down (vw - 1)) /\
    Z.shiftl v (pw - 1) = Z.lxor (xor_shifts p shifts) r.
Proof.
  intros Hv Hp Hpw.
  destruct (calc_bch_fits v vw p pw Hv Hp Hpw) as (r & Hr & Hbound).
  exists r. pose proof Hr as Hloop.
  unfold calc_bch, lshift at 1 in Hloop.
  rewrite (proj2 (Z.ltb_ge (pw - 1) 0)) in Hloop by lia. cbn [bind] in Hloop.
  rewrite range_down_nat in Hloop.
  destruct (bch_loop_multiple p _ _ r Hloop) as (shifts & Hsub & Heq).
  exists shifts. rewrite range_down_nat. repeat split; try assumption; lia.
Qed.

Lemma calc_bch_remainder_witness :
  exists r shifts,
    calc_bch 9 5 1335 11 = Ok r /\ 0 <= r < 2 ^ (11 - 1) /\
    sublist shifts (range_down (5 - 1)) /\
    Z.shiftl 9 (11 - 1) = Z.lxor (xor_shifts 1335 shifts) r.
Proof. apply (calc_bch_remainder 9 5 1335 11); lia. Defined.

Lemma testbit_top (q k : Z) :
  0 <= k -> 2 ^ k <= q < 2 ^ (k + 1) -> Z.testbit q k = true.
Proof.
  intros Hk Hq. apply Z.testbit_true; [exact Hk|].
  replace (q / 2 ^ k) with 1; [reflexivity|].
  apply Z.div_unique with (q - 2 ^ k); [|lia].
  left. rewrite Z.pow_add_r, Z.pow_1_r in Hq by lia. lia.
Qed.

(** The comparison of an iteration tests the bit the shifted polynomial
    leads with. *)
Lemma reduce_bit (k v q : Z) :
  0 <= k -> 0 <= v < 2 ^ (k + 1) -> 2 ^ k <= q < 2 ^ (k + 1) ->
  reduce q v = if Z.testbit v k then Z.lxor v q else v.
Proof.
  intros Hk Hv Hq.
  pose proof (bch_step k v q Hk Hv Hq) as Hstep.
  assert (0 < 2 ^ k) as Hpow by (apply Z.pow_pos_nonneg; lia).
  destruct (Z.lt_ge_cases v (2 ^ k)) as [Hlow|Hhigh].
  - rewrite (testbit_above v k k) by lia.
    assert (Z.testbit (Z.lxor v q) k = true) as Hbit.
    { rewrite Z.lxor_spec, (testbit_above v k k), (testbit_top q k) by lia.
      reflexivity. }
    destruct (Z.ltb_spec (Z.lxor v q) v) as [Hlt|]; [|reflexivity].
    assert (0 <= Z.lxor v q) by (apply Z.lxor_nonneg; lia).
    rewrite (testbit_above (Z.lxor v q) k k) in Hbit by lia. discriminate.
  - rewrite (testbit_top v k) by lia.
    destruct (Z.lxor v q <? v); [reflexivity | lia].
Qed.

Lemma reduce_lxor (k v1 v2 q : Z) :
  0 <= k -> 0 <= v1 < 2 ^ (k + 1) -> 0 <= v2 < 2 ^ (k + 1) ->
  2 ^ k <= q < 2 ^ (k + 1) ->
  reduce q (Z.lxor v1 v2) = Z.lxor (reduce q v1) (reduce q v2).
Proof.
  intros Hk H1 H2 Hq.
  pose proof (lxor_lt_pow2 v1 v2 (k + 1) ltac:(lia) H1 H2) as H12.
  rewrite !(reduce_bit k) by assumption.
  rewrite Z.lxor_spec.
  destruct (Z.testbit v1 k), (Z.testbit v2 k); simpl;
    apply Z.bits_inj'; intros n _; rewrite !Z.lxor_spec;
    destruct (Z.testbit v1 n), (Z.testbit v2 n), (Z.testbit q n);
    reflexivity.
Qed.

Lemma bch_loop_lxor (p pw : Z) (n : nat) (v1 v2 : Z) :
  1 <= pw -> 2 ^ (pw - 1) <= p < 2 ^ pw ->
  0 <= v1 < 2 ^ (pw - 1 + Z.of_nat n) ->
  0 <= v2 < 2 ^ (pw - 1 + Z.of_nat n) ->
  exists r1 r2,
    for_each (reverse (seqZ 0 (Z.of_nat n))) (bch_body p) v1 = Ok r1 /\
    for_each (reverse (seqZ 0 (Z.of_nat n))) (bch_body p) v2 = Ok r2 /\
    for_each (reverse (seqZ 0 (Z.of_nat n))) (bch_body p) (Z.lxor v1 v2) =
    Ok (Z.lxor r1 r2).
Proof.
  intros Hpw Hp. revert v1 v2. induction n as [|n IH]; intros v1 v2 H1 H2.
  - exists v1, v2. repeat split; reflexivity.
  - rewrite seqZ_S, reverse_snoc, Z.add_0_l. cbn [for_each].
    rewrite !bch_body_reduce. cbn [bind].
    assert (0 < 2 ^ Z.of_nat n) as Hpow by (apply Z.pow_pos_nonneg; lia).
    assert (2 ^ (pw - 1 + Z.of_nat n) <= Z.shiftl p (Z.of_nat n)
            < 2 ^ (pw - 1 + Z.of_nat n + 1)) as Hq.
    { rewrite Z.shiftl_mul_pow2 by lia.
      replace (pw - 1 + Z.of_nat n + 1) with (pw + Z.of_nat n) by lia.
      rewrite !Z.pow_add_r by lia. nia. }
    replace (pw - 1 + Z.of_nat (S n)) with (pw - 1 + Z.of_nat n + 1)
      in H1, H2 by lia.
    rewrite (reduce_lxor (pw - 1 + Z.of_nat n)) by (assumption || lia).
    apply IH.
    + apply (bch_step (pw - 1 + Z.of_nat n)); (assumption || lia).
    + apply (bch_step (pw - 1 + Z.of_nat n)); (assumption || lia).
Qed.

(** X25: the remainder is linear: the remainder of the XOR of two values is
    the XOR of their remainders. *)
Theorem calc_bch_linear (v1 v2 vw p pw : Z) :
  0 <= v1 < 2 ^ vw -> 0 <= v2 < 2 ^ vw ->
  2 ^ (pw - 1) <= p < 2 ^ pw -> 1 <= pw ->
  exists r1 r2,
    calc_bch v1 vw p pw = Ok r1 /\ calc_bch v2 vw p pw = Ok r2 /\
    calc_bch (Z.lxor v1 v2) vw p pw = Ok (Z.lxor r1 r2).
Proof.
  intros H1 H2 Hp Hpw.
  assert (0 <= vw) as Hvw.
  { destruct (Z.lt_ge_cases vw 0) as [Hneg|]; [|assumption].
    rewrite (Z.pow_neg_r 2 vw Hneg) in H1. lia. }
  unfold calc_bch.
  assert (forall x, lshift x (pw - 1) = Ok (Z.shiftl x (pw - 1))) as Hshift
    by (intros x; unfold lshift;
        rewrite (proj2 (Z.ltb_ge (pw - 1) 0)) by lia; reflexivity).
  rewrite !Hshift. cbn [bind].
  rewrite range_down_nat, Z.shiftl_lxor.
  assert (0 < 2 ^ (pw - 1)) by (apply Z.pow_pos_nonneg; lia).
  apply (bch_loop_lxor p pw); try assumption;
    rewrite Z.shiftl_mul_pow2, Z2Nat.id, Z.pow_add_r by lia; nia.
Qed.

Lemma calc_bch_linear_witness :
  exists r1 r2,
    calc_bch 9 5 1335 11 = Ok r1 /\ calc_bch 15 5 1335 11 = Ok r2 /\
    calc_bch (Z.lxor 9 15) 5 1335 11 = Ok (Z.lxor r1 r2).
Proof. apply (calc_bch_linear 9 15 5 1335 11); lia. Defined.

End RemainderMore.

(** ** The loop that turns a text into codewords *)

Section Text.

Local Abbreviation shift_body :=
  (fun i data =>
     let! x := getitem data i in
     setitem data i (x + 1)).

(** The loop from index [k] on, over [m] bytes below 255: the bytes before
    [k] are already incremented. *)
Lemma shift_text_from (l : list Z) (m k : nat) :
  (k + m <= length l)%nat ->
  (forall j, (k <= j < k + m)%nat -> 0 <= l !!! j < 255) ->
  for_each (seqZ (Z.of_nat k) (Z.of_nat m)) shift_body
    (((fun x => x + 1) <$> take k l) ++ drop k l) =
  Ok (((fun x => x + 1) <$> take (k + m) l) ++ drop (k + m) l).
Proof.
  revert k. induction m as [|m IH]; intros k Hkm Hgood.
  - simpl. rewrite Nat.add_0_r. reflexivity.
  - rewrite seqZ_cons by lia.
    replace (Z.succ (Z.of_nat k)) with (Z.of_nat (S k)) by lia.
    replace (Z.pred (Z.of_nat (S m))) with (Z.of_nat m) by lia.
    cbn [for_each].
    assert (l !! k = Some (l !!! k)) as Hk
      by (apply list_lookup_lookup_total_lt; lia).
    assert (length ((fun x => x + 1) <$> take k l) = k) as Hlen
      by (rewrite length_fmap, length_take; lia).
    rewrite (getitem_in_range _ _ (l !!! k)); [|lia|].
    + cbn [bind]. rewrite setitem_in_range.
      * cbn [bind]. rewrite Nat2Z.id.
        rewrite insert_app_r_alt by lia.
        rewrite Hlen, Nat.sub_diag, (drop_S l _ k Hk). simpl.
        rewrite cons_middle, app_assoc.
        replace (((fun x => x + 1) <$> take k l) ++ [l !!! k + 1])
          with ((fun x => x + 1) <$> take (S k) l)
          by (rewrite (take_S_r l k _ Hk), fmap_app; reflexivity).
        replace (k + S m)%nat with (S k + m)%nat by lia.
        apply IH; [lia|]. intros j Hj. apply Hgood. lia.
      * specialize (Hgood k ltac:(lia)). unfold is_byte. lia.
      * rewrite length_app, Hlen, length_drop. lia.
    + rewrite Nat2Z.id, lookup_app_r by lia.
      rewrite Hlen, Nat.sub_diag, lookup_drop, Nat.add_0_r. exact Hk.
Qed.

(** X26: the loop adds one to every byte of a text whose bytes are below
    255 (ASCII bytes are), and is a [ValueError] at the first byte 255. *)
Theorem shift_text_bytes (data l1 l2 : list Z) :
  (Forall (fun x => 0 <= x < 255) data ->
   shift_text data = Ok ((fun x => x + 1) <$> data)) /\
  (Forall (fun x => 0 <= x < 255) l1 ->
   shift_text (l1 ++ 255 :: l2) = Raise ValueError).
Proof.
  split.
  - intros Hdata. unfold shift_text, range.
    pose proof (shift_text_from data (length data) 0) as Hloop.
    rewrite take_0, drop_0 in Hloop. simpl in Hloop.
    change (Z.of_nat 0) with 0 in Hloop. rewrite Hloop.
    + rewrite take_ge, drop_ge by lia. rewrite app_nil_r. reflexivity.
    + lia.
    + intros j Hj.
      apply (Forall_lookup_total_1 _ _ _ Hdata). lia.
  - intros Hl1. unfold shift_text, range.
    rewrite length_app. simpl length.
    replace (Z.of_nat (length l1 + S (length l2)))
      with (Z.of_nat (length l1) + Z.of_nat (S (length l2))) by lia.
    rewrite seqZ_app, for_each_app by lia.
    pose proof (shift_text_from (l1 ++ 255 :: l2) (length l1) 0) as Hloop.
    rewrite take_0, drop_0 in Hloop. simpl in Hloop.
    change (Z.of_nat 0) with 0 in Hloop. rewrite Z.add_0_l, Hloop.
    + cbn [bind]. rewrite take_app_length, drop_app_length.
      rewrite seqZ_cons by lia. cbn [for_each].
      rewrite (getitem_in_range _ _ 255); [reflexivity | lia |].
      rewrite Nat2Z.id, lookup_app_r by (rewrite length_fmap; lia).
      rewrite length_fmap, Nat.sub_diag. reflexivity.
    + rewrite length_app. simpl. lia.
    + intros j Hj. rewrite lookup_total_app_l by lia.
      apply (Forall_lookup_total_1 _ _ _ Hl1). lia.
Qed.

Lemma shift_text_bytes_witness :
  (Forall (fun x => 0 <= x < 255) [65] ->
   shift_text [65] = Ok ((fun x => x + 1) <$> [65])) /\
  (Forall (fun x => 0 <= x < 255) [65] ->
   shift_text ([65] ++ 255 :: [66]) = Raise ValueError).
Proof. apply (shift_text_bytes [65] [65] [66]). Defined.

End Text.
